(** * Smart parking lot: occupancy ledger and billing

    A shallow embedding of [parking,py.py] (class [SmartParkingSystem]) and
    the properties of its slot allocation, charge computation and daily
    counters.

    Modelling conventions.
    - [datetime.datetime] values are naive timestamps with microsecond
      resolution; they are integers counting microseconds.  Every read of
      [datetime.datetime.now()] is an explicit argument [now] of the
      operation that performs it.
    - Python [int] is [Z].  Amounts are modelled twice.  In the ledger at
      the top level a [float] is idealised as an exact rational [Q]: the
      binary64 rounding of the results of [/], [-], [*], [+] and [round]
      is left out and amounts are compared with [==]; this is the model
      for the slot logic and for the order of amounts.  [Module Binary64]
      has the same methods with the arithmetic of the source, primitive
      binary64 doubles; it is the model for the value of an amount and of
      the revenue, which differ from the exact ones in the last place.
    - [self.parking_slots] is a [dict] that is iterated ([.items()],
      [.values()]), so it is an association list in insertion order;
      [self.pricing] is only looked up, so it is a [gmap].
    - A Python exception is a [Raise] result; the strings an operation
      returns are the constructors of a message type carrying the values
      substituted in the f-string. *)

From Stdlib Require Import ZArith QArith Qround Qabs Lqa Lia.
From Corelib Require PrimFloat SpecFloat FloatOps.
From stdpp Require Import base option list strings gmap.
Import PrimFloat.PrimFloatNotations.

Local Open Scope Z_scope.

(** ** Numbers and time *)

Definition datetime := Z.
Bind Scope Z_scope with datetime.

(** [(a - b).total_seconds()]: the microseconds of the [timedelta] over
    [10**6]. *)
Definition total_seconds (a b : datetime) : Q := inject_Z (a - b) / 1000000.

(** [(exit_time - entry_time).total_seconds() / 3600]. *)
Definition duration_hours (exit_time entry_time : datetime) : Q :=
  total_seconds exit_time entry_time / 3600.

(** The nearest integer, an exact half going to the even neighbour. *)
Definition round_half_even (q : Q) : Z :=
  let f := Qfloor q in
  match (q - inject_Z f ?= 1 # 2)%Q with
  | Lt => f
  | Gt => f + 1
  | Eq => if Z.even f then f else f + 1
  end.

(** The builtin [round(x, ndigits)] for [ndigits >= 0]. *)
Definition py_round (x : Q) (ndigits : nat) : Q :=
  let scale := inject_Z (10 ^ Z.of_nat ndigits) in
  inject_Z (round_half_even (x * scale)) / scale.

(** ** Exceptions *)

Inductive exn :=
| KeyError (k : string)
| TypeError
| ZeroDivisionError.

Inductive pyresult (A : Type) :=
| Return (a : A)
| Raise (e : exn).
Arguments Return {A} a.
Arguments Raise {A} e.

#[global] Instance pyresult_ret : MRet pyresult := λ A a, Return a.
#[global] Instance pyresult_bind : MBind pyresult := λ A B k m,
  match m with
  | Return a => k a
  | Raise e => Raise e
  end.

Definition raises {A} (m : pyresult A) : Prop :=
  match m with
  | Return _ => False
  | Raise _ => True
  end.

(** [a / b] with an [int] divisor. *)
Definition py_div (a : Q) (b : Z) : pyresult Q :=
  if decide (b = 0) then Raise ZeroDivisionError
  else Return (a / inject_Z b)%Q.

(** ** Dictionaries in insertion order *)

Section dict.
Context {V : Type}.

Definition dict := list (Z * V).

Fixpoint dict_lookup (d : dict) (k : Z) : option V :=
  match d with
  | [] => None
  | (k', v) :: d' => if decide (k = k') then Some v else dict_lookup d' k
  end.

(** [d[k] = v]: an existing key keeps its position, a new one goes last. *)
Fixpoint dict_set (d : dict) (k : Z) (v : V) : dict :=
  match d with
  | [] => [(k, v)]
  | (k', v') :: d' =>
      if decide (k = k') then (k', v) :: d' else (k', v') :: dict_set d' k v
  end.

Definition dict_keys (d : dict) : list Z := d.*1.
Definition dict_values (d : dict) : list V := d.*2.
End dict.
Arguments dict V : clear implicits.

(** ** The ledger *)

(** [{'base': b, 'hourly': h}]. *)
Record rates := Rates { base : Z; hourly : Z }.

(** [{'vehicle_no': .., 'type': .., 'entry_time': ..}]. *)
Record vehicle := Vehicle {
  vehicle_no : string;
  vtype : string;
  entry_time : datetime
}.

(** The values substituted in the report template of [daily_report]; the
    template prints the revenue and the average with two decimals. *)
Record report := Report {
  rep_date : datetime;
  rep_vehicles : Z;
  rep_revenue : Q;
  rep_avg : Q;
  rep_peak : Z;
  rep_total_slots : Z
}.

Record SmartParkingSystem := Ledger {
  total_slots : Z;
  parking_slots : dict (option vehicle);
  revenue_today : Q;
  vehicles_today : Z;
  daily_records : list report;
  pricing : gmap string rates
}.

Definition default_pricing : gmap string rates :=
  <["bike" := Rates 10 5]>
    (<["car" := Rates 20 10]>
       (<["ev" := Rates 25 12]>
          (<["heavy" := Rates 50 25]> ∅))).

(** [__init__]: [{i: None for i in range(1, total_slots + 1)}]. *)
Definition init (n : Z) : SmartParkingSystem :=
  {| total_slots := n;
     parking_slots := (λ i, (i, None)) <$> seqZ 1 n;
     revenue_today := 0;
     vehicles_today := 0;
     daily_records := [];
     pricing := default_pricing |}.

(** [self.parking_slots.get(slot)]: a missing key reads as [None]. *)
Definition slot_get (st : SmartParkingSystem) (slot : Z) : option vehicle :=
  default None (dict_lookup (parking_slots st) slot).

Fixpoint first_free (d : dict (option vehicle)) : option Z :=
  match d with
  | [] => None
  | (slot, v) :: d' =>
      match v with
      | None => Some slot
      | Some _ => first_free d'
      end
  end.

Definition find_free_slot (st : SmartParkingSystem) : option Z :=
  first_free (parking_slots st).

(** The three strings [vehicle_entry] returns. *)
Inductive entry_message :=
| InvalidVehicleType (vehicle_type : string)
| ParkingFull
| Parked (vehicle_no vehicle_type : string) (free_slot : Z)
    (entry_time : datetime).

Definition vehicle_entry (st : SmartParkingSystem)
    (vehicle_no vehicle_type : string) (now : datetime)
  : SmartParkingSystem * entry_message :=
  match pricing st !! vehicle_type with
  | None => (st, InvalidVehicleType vehicle_type)
  | Some _ =>
      match find_free_slot st with
      | None => (st, ParkingFull)
      | Some free_slot =>
          let entry_time := now in
          ({| total_slots := total_slots st;
              parking_slots :=
                dict_set (parking_slots st) free_slot
                  (Some (Vehicle vehicle_no vehicle_type entry_time));
              revenue_today := revenue_today st;
              vehicles_today := vehicles_today st + 1;
              daily_records := daily_records st;
              pricing := pricing st |},
           Parked vehicle_no vehicle_type free_slot entry_time)
      end
  end.

(** [self.pricing[k]]. *)
Definition pricing_item (st : SmartParkingSystem) (k : string)
  : pyresult rates :=
  match pricing st !! k with
  | Some r => Return r
  | None => Raise (KeyError k)
  end.

Definition calculate_charges (st : SmartParkingSystem) (slot : Z)
    (now : datetime) : pyresult (Q * option datetime) :=
  match slot_get st slot with
  | None => Return (0%Q, None)
  | Some vehicle_data =>
      let exit_time := now in
      let duration_hours := duration_hours exit_time (entry_time vehicle_data) in
      rates ← pricing_item st (vtype vehicle_data);
      let charges :=
        if Qle_bool duration_hours 2 then inject_Z (base rates)
        else (inject_Z (base rates)
              + (duration_hours - 2) * inject_Z (hourly rates))%Q in
      Return (py_round charges 2, Some exit_time)
  end.

(** The two strings [vehicle_exit] returns. *)
Inductive exit_message :=
| SlotEmptyOrInvalid (slot : Z)
| Exiting (vehicle_no vtype : string) (slot : Z)
    (entry_time exit_time : datetime) (duration charges : Q).

Definition vehicle_exit (st : SmartParkingSystem) (slot : Z) (now : datetime)
  : pyresult (SmartParkingSystem * exit_message) :=
  match slot_get st slot with
  | None => Return (st, SlotEmptyOrInvalid slot)
  | Some vehicle_data =>
      '(charges, exit_time) ← calculate_charges st slot now;
      match exit_time with
      | None => Raise TypeError
      | Some exit_time =>
          let duration := duration_hours exit_time (entry_time vehicle_data) in
          Return
            ({| total_slots := total_slots st;
                parking_slots := dict_set (parking_slots st) slot None;
                revenue_today := (revenue_today st + charges)%Q;
                vehicles_today := vehicles_today st;
                daily_records := daily_records st;
                pricing := pricing st |},
             Exiting (vehicle_no vehicle_data) (vtype vehicle_data) slot
               (entry_time vehicle_data) exit_time duration charges)
      end
  end.

(** [sum(1 for v in values if v is not None)]. *)
Fixpoint count_occupied (vs : list (option vehicle)) : Z :=
  match vs with
  | [] => 0
  | v :: vs' =>
      match v with
      | Some _ => 1 + count_occupied vs'
      | None => count_occupied vs'
      end
  end.

(** What [display_status] prints. *)
Record status_view := StatusView {
  sv_total : Z;
  sv_occupied : Z;
  sv_free : Z;
  sv_revenue : Q;
  sv_vehicles : Z;
  sv_lines : list (Z * string * string * Q)
}.

Definition display_status (st : SmartParkingSystem) (now : datetime)
  : status_view :=
  let occupied := count_occupied (dict_values (parking_slots st)) in
  {| sv_total := total_slots st;
     sv_occupied := occupied;
     sv_free := total_slots st - occupied;
     sv_revenue := revenue_today st;
     sv_vehicles := vehicles_today st;
     sv_lines :=
       omap (λ '(slot, data),
               (λ v, (slot, vehicle_no v, vtype v,
                      duration_hours now (entry_time v))) <$> data)
            (parking_slots st) |}.

Definition daily_report (st : SmartParkingSystem) (now : datetime)
  : pyresult (SmartParkingSystem * report) :=
  let vehicles := vehicles_today st in
  avg ← (if decide (vehicles = 0) then Return 0%Q
         else py_div (revenue_today st) vehicles);
  let peak := count_occupied (dict_values (parking_slots st)) in
  let report :=
    {| rep_date := now;
       rep_vehicles := vehicles;
       rep_revenue := revenue_today st;
       rep_avg := avg;
       rep_peak := peak;
       rep_total_slots := total_slots st |} in
  Return
    ({| total_slots := total_slots st;
        parking_slots := parking_slots st;
        revenue_today := revenue_today st;
        vehicles_today := vehicles_today st;
        daily_records := daily_records st ++ [report];
        pricing := pricing st |},
     report).

(** [save_report]: the text of [daily_report] is appended to a file, which
    is outside the ledger. *)
Definition save_report (st : SmartParkingSystem) (now : datetime)
  : pyresult (SmartParkingSystem * report) :=
  daily_report st now.

(** ** Sequences of calls *)

Inductive call :=
| VehicleEntry (vehicle_no vehicle_type : string) (now : datetime)
| CalculateCharges (slot : Z) (now : datetime)
| VehicleExit (slot : Z) (now : datetime)
| DisplayStatus (now : datetime)
| DailyReport (now : datetime)
| SaveReport (now : datetime).

Inductive output :=
| OutEntry (m : entry_message)
| OutCharges (r : Q * option datetime)
| OutExit (m : exit_message)
| OutStatus (v : status_view)
| OutReport (r : report).

Definition step (st : SmartParkingSystem) (c : call)
  : pyresult (SmartParkingSystem * output) :=
  match c with
  | VehicleEntry vehicle_no vehicle_type now =>
      let '(st', m) := vehicle_entry st vehicle_no vehicle_type now in
      Return (st', OutEntry m)
  | CalculateCharges slot now =>
      r ← calculate_charges st slot now; Return (st, OutCharges r)
  | VehicleExit slot now =>
      '(st', m) ← vehicle_exit st slot now; Return (st', OutExit m)
  | DisplayStatus now => Return (st, OutStatus (display_status st now))
  | DailyReport now =>
      '(st', r) ← daily_report st now; Return (st', OutReport r)
  | SaveReport now =>
      '(st', r) ← save_report st now; Return (st', OutReport r)
  end.

(** The calls are made in order on one ledger; an exception ends the run. *)
Fixpoint run (st : SmartParkingSystem) (cs : list call)
  : pyresult (SmartParkingSystem * list output) :=
  match cs with
  | [] => Return (st, [])
  | c :: cs' =>
      '(st', o) ← step st c;
      '(st'', os) ← run st' cs';
      Return (st'', o :: os)
  end.

(** A ledger some sequence of calls produces from a fresh one. *)
Definition reachable (st : SmartParkingSystem) : Prop :=
  ∃ n cs os, run (init n) cs = Return (st, os).

(** The amounts of the receipts of the releases that went through. *)
Fixpoint release_charges (os : list output) : list Q :=
  match os with
  | [] => []
  | OutExit (Exiting _ _ _ _ _ _ charges) :: os' =>
      charges :: release_charges os'
  | _ :: os' => release_charges os'
  end.

Definition Qsum (l : list Q) : Q := foldr Qplus 0%Q l.

(** ** Vocabulary of the properties *)

Definition slot_free (st : SmartParkingSystem) (slot : Z) : Prop :=
  dict_lookup (parking_slots st) slot = Some None.

Definition slot_occupied_by (st : SmartParkingSystem) (slot : Z) (v : vehicle)
  : Prop :=
  dict_lookup (parking_slots st) slot = Some (Some v).

Definition slot_in_range (st : SmartParkingSystem) (slot : Z) : Prop :=
  1 ≤ slot ≤ total_slots st.

Definition slot_vacant (st : SmartParkingSystem) (slot : Z) : Prop :=
  ∀ v, ¬ slot_occupied_by st slot v.

Definition no_free_slot (st : SmartParkingSystem) : Prop :=
  ∀ slot, ¬ slot_free st slot.

Definition lowest_free_slot (st : SmartParkingSystem) (slot : Z) : Prop :=
  slot_free st slot ∧ ∀ k, slot_free st k → slot ≤ k.

(** The slots of the facility that hold a vehicle, in ascending order. *)
Definition occupied_slots (st : SmartParkingSystem) : list Z :=
  filter (λ slot, is_Some (slot_get st slot)) (seqZ 1 (total_slots st)).

Definition hour : Z := 3600000000.

(** A ledger with ten slots after two admissions at time [0]. *)
Definition two_parked : SmartParkingSystem :=
  (vehicle_entry (vehicle_entry (init 10) "KA01" "car" 0).1 "KA02" "bike" 0).1.

(** Ten admissions of cars, at the times 0 to 9. *)
Definition ten_cars : list call :=
  (λ i, VehicleEntry "KA" "car" i) <$> seqZ 0 10.

(** The amount on the receipt of a release, in lowest terms. *)
Definition receipt_amount (r : pyresult (SmartParkingSystem * exit_message))
  : option Q :=
  match r with
  | Return (_, Exiting _ _ _ _ _ _ charges) => Some (Qred charges)
  | _ => None
  end.

(** [amount] is [x] rounded to two decimals: a whole number of hundredths,
    nearest to [x], and the even one when [x] is half-way between two. *)
Definition rounded_2dp (x amount : Q) : Prop :=
  ∃ n : Z,
    (amount == inject_Z n / 100)%Q
    ∧ (Qabs (x * 100 - inject_Z n) <= 1 # 2)%Q
    ∧ ((Qabs (x * 100 - inject_Z n) == 1 # 2)%Q → Z.even n = true).

(** What holds of every ledger the calls can produce. *)
Record ledger_inv (st : SmartParkingSystem) : Prop := {
  inv_keys : dict_keys (parking_slots st) = seqZ 1 (total_slots st);
  inv_pricing : pricing st = default_pricing;
  inv_types : ∀ slot v, slot_occupied_by st slot v →
                is_Some (pricing st !! vtype v);
  inv_revenue : (0 <= revenue_today st)%Q;
  inv_vehicles : 0 ≤ vehicles_today st
}.

(** ** Reports on file *)

(** The files [save_report] appends to: a name maps to the reports written
    to it so far, first to last; a name that is absent is a file that does
    not exist yet. *)
Definition filesystem := gmap string (list report).

Definition default_report_file : string := "parking_report.txt".

(** [save_report] with the file made explicit.  The file is opened in
    append mode, which creates it when it does not exist and keeps what it
    holds; the text [daily_report] returns is written at its end.  The
    file is taken to be one that can be opened. *)
Definition save_report_file (st : SmartParkingSystem) (fs : filesystem)
    (filename : string) (now : datetime)
  : pyresult (SmartParkingSystem * filesystem) :=
  let f := default [] (fs !! filename) in
  '(st', report) ← daily_report st now;
  Return (st', <[filename := f ++ [report]]> fs).

(** [save_report(filename)] once for each of the clock readings. *)
Fixpoint save_reports (st : SmartParkingSystem) (fs : filesystem)
    (filename : string) (times : list datetime)
  : pyresult (SmartParkingSystem * filesystem) :=
  match times with
  | [] => Return (st, fs)
  | now :: times' =>
      '(st', fs') ← save_report_file st fs filename now;
      save_reports st' fs' filename times'
  end.

(** ** The menu loop *)

(** What [main] and the methods it calls print, one constructor for each
    [print] with the values it shows; [PrintMenu] is the banner and the
    menu at the head of a round. *)
Inductive printed :=
| PrintMenu
| PrintEntry (m : entry_message)
| PrintExit (m : exit_message)
| PrintInvalidSlot
| PrintStatus (v : status_view)
| PrintReport (r : report)
| PrintSaved (filename : string)
| PrintGoodbye
| PrintInvalidChoice.

(** How [main] stops: the [break] of choice 6, or an exception nothing
    catches; [input] raises [EOFError] when no line is left. *)
Inductive ending :=
| Quit
| EndOfInput
| Uncaught (e : exn).

Record session := Session {
  final_ledger : SmartParkingSystem;
  final_files : filesystem;
  console : list printed;
  how_ended : ending
}.

Definition say (ps : list printed) (s : session) : session :=
  {| final_ledger := final_ledger s;
     final_files := final_files s;
     console := ps ++ console s;
     how_ended := how_ended s |}.

Definition stop (parking : SmartParkingSystem) (fs : filesystem)
    (e : ending) : session :=
  {| final_ledger := parking;
     final_files := fs;
     console := [PrintMenu];
     how_ended := e |}.

Section main.
(** The builtins [str.strip], [str.upper], [str.lower] and [int] (with
    [None] for [ValueError]) are parameters, and so is the clock: [clock i]
    is what [datetime.now()] reads in round [i] of the loop.  Writing to
    the console and to the report file is taken to succeed. *)
Variables py_strip py_upper py_lower : string → string.
Variable py_int : string → option Z.
Variable clock : nat → datetime.

(** The [while True] loop of [main] on the lines typed at the console. *)
Fixpoint main_loop (inputs : list string) (round : nat)
    (parking : SmartParkingSystem) (fs : filesystem) : session :=
  match inputs with
  | [] => stop parking fs EndOfInput
  | line :: inputs1 =>
      let choice := py_strip line in
      if decide (choice = "1") then
        match inputs1 with
        | [] => stop parking fs EndOfInput
        | line_no :: inputs2 =>
            match inputs2 with
            | [] => stop parking fs EndOfInput
            | line_type :: inputs3 =>
                let veh_no := py_upper (py_strip line_no) in
                let veh_type := py_lower (py_strip line_type) in
                let '(parking', m) :=
                  vehicle_entry parking veh_no veh_type (clock round) in
                say [PrintMenu; PrintEntry m]
                  (main_loop inputs3 (S round) parking' fs)
            end
        end
      else if decide (choice = "2") then
        match inputs1 with
        | [] => stop parking fs EndOfInput
        | line_slot :: inputs2 =>
            match py_int line_slot with
            | None =>
                say [PrintMenu; PrintInvalidSlot]
                  (main_loop inputs2 (S round) parking fs)
            | Some slot =>
                match vehicle_exit parking slot (clock round) with
                | Return (parking', m) =>
                    say [PrintMenu; PrintExit m]
                      (main_loop inputs2 (S round) parking' fs)
                | Raise e => stop parking fs (Uncaught e)
                end
            end
        end
      else if decide (choice = "3") then
        say [PrintMenu; PrintStatus (display_status parking (clock round))]
          (main_loop inputs1 (S round) parking fs)
      else if decide (choice = "4") then
        match daily_report parking (clock round) with
        | Return (parking', r) =>
            say [PrintMenu; PrintReport r]
              (main_loop inputs1 (S round) parking' fs)
        | Raise e => stop parking fs (Uncaught e)
        end
      else if decide (choice = "5") then
        match save_report_file parking fs default_report_file (clock round) with
        | Return (parking', fs') =>
            say [PrintMenu; PrintSaved default_report_file]
              (main_loop inputs1 (S round) parking' fs')
        | Raise e => stop parking fs (Uncaught e)
        end
      else if decide (choice = "6") then
        {| final_ledger := parking;
           final_files := fs;
           console := [PrintMenu; PrintGoodbye];
           how_ended := Quit |}
      else
        say [PrintMenu; PrintInvalidChoice]
          (main_loop inputs1 (S round) parking fs)
  end.

(** [main]: the loop on a ledger of ten slots. *)
Definition main (inputs : list string) (fs : filesystem) : session :=
  main_loop inputs 0 (init 10) fs.
End main.

(** ** Status with a clock reading for each line *)

(** The loop of [display_status] over the items of the slot table: the
    clock is read anew for each slot that holds a vehicle, [clock k] being
    what [datetime.now()] reads for line [k] (from 0). *)
Fixpoint status_lines (d : dict (option vehicle)) (clock : nat → datetime)
  : list (Z * string * string * Q) :=
  match d with
  | [] => []
  | (slot, data) :: d' =>
      match data with
      | Some v =>
          (slot, vehicle_no v, vtype v,
           duration_hours (clock 0%nat) (entry_time v))
          :: status_lines d' (λ k, clock (S k))
      | None => status_lines d' clock
      end
  end.

Definition display_status_clock (st : SmartParkingSystem)
    (clock : nat → datetime) : status_view :=
  let occupied := count_occupied (dict_values (parking_slots st)) in
  {| sv_total := total_slots st;
     sv_occupied := occupied;
     sv_free := total_slots st - occupied;
     sv_revenue := revenue_today st;
     sv_vehicles := vehicles_today st;
     sv_lines := status_lines (parking_slots st) clock |}.

(** The slots from 1 to the capacity that hold a vehicle, each with its
    occupant, in ascending order. *)
Definition occupants (st : SmartParkingSystem) : list (Z * vehicle) :=
  omap (λ slot, (λ v, (slot, v)) <$> slot_get st slot)
    (seqZ 1 (total_slots st)).

(** ** Counting what a run returned *)

(** What a slot adds to [count_occupied]. *)
Definition occupied (o : option vehicle) : Z :=
  match o with
  | Some _ => 1
  | None => 0
  end.

(** The slots the admissions of a run were given, in order. *)
Fixpoint parked_slots (os : list output) : list Z :=
  match os with
  | [] => []
  | OutEntry (Parked _ _ free_slot _) :: os' => free_slot :: parked_slots os'
  | _ :: os' => parked_slots os'
  end.

(** The reports a run returned, in order. *)
Fixpoint returned_reports (os : list output) : list report :=
  match os with
  | [] => []
  | OutReport r :: os' => r :: returned_reports os'
  | _ :: os' => returned_reports os'
  end.

(** Admissions only: one call of [vehicle_entry] for each vehicle number,
    type and clock reading. *)
Definition entries (vs : list (string * string * datetime)) : list call :=
  (λ '(vehicle_no, vehicle_type, now), VehicleEntry vehicle_no vehicle_type now)
    <$> vs.

(** The answer an admission gets when [j] slots are taken already. *)
Definition entry_answer (total j : Z) (v : string * string * datetime)
  : output :=
  let '(vehicle_no, vehicle_type, now) := v in
  OutEntry
    (if decide (j < total) then Parked vehicle_no vehicle_type (j + 1) now
     else ParkingFull).

(** The slot, number and type of a line of [display_status]. *)
Definition line_vehicle (l : Z * string * string * Q) : Z * string * string :=
  let '(slot, vehicle_no, vtype, _) := l in (slot, vehicle_no, vtype).

(** ** The ledger with binary64 amounts *)

(** The methods that compute and add amounts, with the arithmetic of the
    source: Python's [float] is IEEE 754 binary64, here the primitive
    [float] with its operations.  What the primitives do not have is
    written out on the exact value of the operands: the conversion of an
    [int] and the true division of two [int]s, which Python rounds
    correctly, and [round], which takes the decimal nearest to the exact
    value of the double and returns the double nearest to that decimal. *)
Module Binary64.
Import PrimFloat.

(** The double nearest to [num / den], an exact half going to the even
    mantissa: the quotient is taken to 56 bits or more with a sticky bit
    and rounded once. *)
Definition nearest_double (num : Z) (den : positive) : float :=
  let a := Z.abs num in
  let k := Z.max 0 (56 + Z.log2 (Z.pos den) - Z.log2 a) in
  let q := (a * 2 ^ k) / Z.pos den in
  let r := (a * 2 ^ k) mod Z.pos den in
  let m := 2 * q + (if r =? 0 then 0 else 1) in
  FloatOps.SF2Prim
    (SpecFloat.binary_normalize FloatOps.prec FloatOps.emax
       (if num <? 0 then - m else m) (- k - 1) false).

(** The exact value of a double that is finite. *)
Definition to_Q (x : float) : option Q :=
  match FloatOps.Prim2SF x with
  | SpecFloat.S754_zero _ => Some 0%Q
  | SpecFloat.S754_finite s m e =>
      Some ((if s then inject_Z (Z.neg m) else inject_Z (Z.pos m)) * 2 ^ e)%Q
  | _ => None
  end.

(** [float(z)] for an [int]. *)
Definition of_int (z : Z) : float := nearest_double z 1.

(** [round(x, ndigits)] for a [float] and [ndigits >= 0]; a NaN or an
    infinity is returned as it is, a result of 0 keeps the sign of [x]. *)
Definition py_round (x : float) (ndigits : nat) : float :=
  match to_Q x with
  | None => x
  | Some q =>
      let scale := 10 ^ Z.of_nat ndigits in
      let n := round_half_even (q * inject_Z scale) in
      if n =? 0 then (x * zero)%float else nearest_double n (Z.to_pos scale)
  end.

(** A number that is an [int] or a [float]. *)
Inductive pynum :=
| PyInt (z : Z)
| PyFloat (x : float).

Definition to_float (a : pynum) : float :=
  match a with
  | PyInt z => of_int z
  | PyFloat x => x
  end.

(** The builtin [round(a, ndigits)], [ndigits >= 0]: an [int] is returned
    as it is. *)
Definition round_num (a : pynum) (ndigits : nat) : pynum :=
  match a with
  | PyInt z => PyInt z
  | PyFloat x => PyFloat (py_round x ndigits)
  end.

(** [(a - b).total_seconds()]: the true division of the microseconds by
    [10**6]. *)
Definition total_seconds (a b : datetime) : float :=
  nearest_double (a - b) 1000000.

(** [(exit_time - entry_time).total_seconds() / 3600]. *)
Definition duration_hours (exit_time entry_time : datetime) : float :=
  (total_seconds exit_time entry_time / of_int 3600)%float.

Record report := Report {
  rep_date : datetime;
  rep_vehicles : Z;
  rep_revenue : float;
  rep_avg : pynum;
  rep_peak : Z;
  rep_total_slots : Z
}.

Record SmartParkingSystem := Ledger {
  total_slots : Z;
  parking_slots : dict (option vehicle);
  revenue_today : float;
  vehicles_today : Z;
  daily_records : list report;
  pricing : gmap string rates
}.

Definition init (n : Z) : SmartParkingSystem :=
  {| total_slots := n;
     parking_slots := (λ i, (i, None)) <$> seqZ 1 n;
     revenue_today := zero;
     vehicles_today := 0;
     daily_records := [];
     pricing := default_pricing |}.

Definition slot_get (st : SmartParkingSystem) (slot : Z) : option vehicle :=
  default None (dict_lookup (parking_slots st) slot).

Definition find_free_slot (st : SmartParkingSystem) : option Z :=
  first_free (parking_slots st).

Definition vehicle_entry (st : SmartParkingSystem)
    (vehicle_no vehicle_type : string) (now : datetime)
  : SmartParkingSystem * entry_message :=
  match pricing st !! vehicle_type with
  | None => (st, InvalidVehicleType vehicle_type)
  | Some _ =>
      match find_free_slot st with
      | None => (st, ParkingFull)
      | Some free_slot =>
          let entry_time := now in
          ({| total_slots := total_slots st;
              parking_slots :=
                dict_set (parking_slots st) free_slot
                  (Some (Vehicle vehicle_no vehicle_type entry_time));
              revenue_today := revenue_today st;
              vehicles_today := vehicles_today st + 1;
              daily_records := daily_records st;
              pricing := pricing st |},
           Parked vehicle_no vehicle_type free_slot entry_time)
      end
  end.

Definition pricing_item (st : SmartParkingSystem) (k : string)
  : pyresult rates :=
  match pricing st !! k with
  | Some r => Return r
  | None => Raise (KeyError k)
  end.

Definition calculate_charges (st : SmartParkingSystem) (slot : Z)
    (now : datetime) : pyresult (pynum * option datetime) :=
  match slot_get st slot with
  | None => Return (PyFloat zero, None)
  | Some vehicle_data =>
      let exit_time := now in
      let duration_hours := duration_hours exit_time (entry_time vehicle_data) in
      rates ← pricing_item st (vtype vehicle_data);
      let charges :=
        if (duration_hours <=? of_int 2)%float then PyInt (base rates)
        else PyFloat (of_int (base rates)
                      + (duration_hours - of_int 2) * of_int (hourly rates))%float in
      Return (round_num charges 2, Some exit_time)
  end.

Inductive exit_message :=
| SlotEmptyOrInvalid (slot : Z)
| Exiting (vehicle_no vtype : string) (slot : Z)
    (entry_time exit_time : datetime) (duration : float) (charges : pynum).

Definition vehicle_exit (st : SmartParkingSystem) (slot : Z) (now : datetime)
  : pyresult (SmartParkingSystem * exit_message) :=
  match slot_get st slot with
  | None => Return (st, SlotEmptyOrInvalid slot)
  | Some vehicle_data =>
      '(charges, exit_time) ← calculate_charges st slot now;
      match exit_time with
      | None => Raise TypeError
      | Some exit_time =>
          let duration := duration_hours exit_time (entry_time vehicle_data) in
          Return
            ({| total_slots := total_slots st;
                parking_slots := dict_set (parking_slots st) slot None;
                revenue_today := (revenue_today st + to_float charges)%float;
                vehicles_today := vehicles_today st;
                daily_records := daily_records st;
                pricing := pricing st |},
             Exiting (vehicle_no vehicle_data) (vtype vehicle_data) slot
               (entry_time vehicle_data) exit_time duration charges)
      end
  end.

Definition daily_report (st : SmartParkingSystem) (now : datetime)
  : pyresult (SmartParkingSystem * report) :=
  let vehicles := vehicles_today st in
  avg ← (if decide (vehicles = 0) then Return (PyInt 0)
         else Return (PyFloat (revenue_today st / of_int vehicles)%float));
  let peak := count_occupied (dict_values (parking_slots st)) in
  let report :=
    {| rep_date := now;
       rep_vehicles := vehicles;
       rep_revenue := revenue_today st;
       rep_avg := avg;
       rep_peak := peak;
       rep_total_slots := total_slots st |} in
  Return
    ({| total_slots := total_slots st;
        parking_slots := parking_slots st;
        revenue_today := revenue_today st;
        vehicles_today := vehicles_today st;
        daily_records := daily_records st ++ [report];
        pricing := pricing st |},
     report).

Inductive call :=
| VehicleEntry (vehicle_no vehicle_type : string) (now : datetime)
| CalculateCharges (slot : Z) (now : datetime)
| VehicleExit (slot : Z) (now : datetime)
| DailyReport (now : datetime).

Inductive output :=
| OutEntry (m : entry_message)
| OutCharges (r : pynum * option datetime)
| OutExit (m : exit_message)
| OutReport (r : report).

Definition step (st : SmartParkingSystem) (c : call)
  : pyresult (SmartParkingSystem * output) :=
  match c with
  | VehicleEntry vehicle_no vehicle_type now =>
      let '(st', m) := vehicle_entry st vehicle_no vehicle_type now in
      Return (st', OutEntry m)
  | CalculateCharges slot now =>
      r ← calculate_charges st slot now; Return (st, OutCharges r)
  | VehicleExit slot now =>
      '(st', m) ← vehicle_exit st slot now; Return (st', OutExit m)
  | DailyReport now =>
      '(st', r) ← daily_report st now; Return (st', OutReport r)
  end.

Fixpoint run (st : SmartParkingSystem) (cs : list call)
  : pyresult (SmartParkingSystem * list output) :=
  match cs with
  | [] => Return (st, [])
  | c :: cs' =>
      '(st', o) ← step st c;
      '(st'', os) ← run st' cs';
      Return (st'', o :: os)
  end.

(** The amounts of the receipts of the releases that went through. *)
Fixpoint release_charges (os : list output) : list pynum :=
  match os with
  | [] => []
  | OutExit (Exiting _ _ _ _ _ _ charges) :: os' =>
      charges :: release_charges os'
  | _ :: os' => release_charges os'
  end.



Definition slot_occupied_by (st : SmartParkingSystem) (slot : Z) (v : vehicle)
  : Prop :=
  dict_lookup (parking_slots st) slot = Some (Some v).


(** Every occupant has a type of the pricing table, which is the one the
    constructor sets. *)
Definition ledger_inv (st : SmartParkingSystem) : Prop :=
  pricing st = default_pricing
  ∧ ∀ slot v, slot_occupied_by st slot v → is_Some (pricing st !! vtype v).

(** A ledger some sequence of calls produces from a fresh one. *)
Definition reachable (st : SmartParkingSystem) : Prop :=
  ∃ n cs os, run (init n) cs = Return (st, os).


End Binary64.

Definition second : Z := 1000000.

(** A ledger with ten slots after the admission of a car and a bike at
    time [0]. *)
Definition binary64_two_parked : Binary64.SmartParkingSystem :=
  (Binary64.vehicle_entry
     (Binary64.vehicle_entry (Binary64.init 10) "KA01" "car" 0).1
     "KA02" "bike" 0).1.




(** ** Rounding *)

Section rounding.
Local Open Scope Q_scope.

Lemma Qfloor_bounds (q : Q) :
  inject_Z (Qfloor q) <= q ∧ q < inject_Z (Qfloor q) + 1.
Proof.
  split; [apply Qfloor_le |].
  pose proof (Qlt_floor q) as H. rewrite inject_Z_plus in H. exact H.
Qed.

Lemma inject_Z_pos (z : Z) : (0 < z)%Z → 0 < inject_Z z.
Proof. intros H. unfold Qlt. simpl. lia. Qed.

Lemma Zeven_succ_of_odd (f : Z) : Z.even f = false → Z.even (f + 1) = true.
Proof. intros H. rewrite Z.even_add, H. reflexivity. Qed.

(** The result is within a half of the argument, and even at a tie. *)
Lemma round_half_even_near (q : Q) :
  Qabs (q - inject_Z (round_half_even q)) <= 1 # 2
  ∧ (Qabs (q - inject_Z (round_half_even q)) == 1 # 2 →
     Z.even (round_half_even q) = true).
Proof.
  unfold round_half_even.
  destruct (Qfloor_bounds q) as [Hlo Hhi].
  set (f := Qfloor q) in *.
  destruct (Qcompare_spec (q - inject_Z f) (1 # 2)) as [He | Hl | Hg].
  - destruct (Z.even f) eqn:Hev.
    + split; [| done]. apply Qabs_Qle_condition. lra.
    + rewrite inject_Z_plus. split.
      * apply Qabs_Qle_condition. change (inject_Z 1) with 1. lra.
      * intros _. by apply Zeven_succ_of_odd.
  - split.
    + apply Qabs_Qle_condition. lra.
    + intros Habs. rewrite Qabs_pos in Habs by lra. lra.
  - rewrite inject_Z_plus. change (inject_Z 1) with 1. split.
    + apply Qabs_Qle_condition. lra.
    + intros Habs. rewrite Qabs_neg in Habs by lra. lra.
Qed.

Lemma round_half_even_range (q : Q) :
  (Qfloor q ≤ round_half_even q ≤ Qfloor q + 1)%Z.
Proof.
  unfold round_half_even.
  destruct (q - inject_Z (Qfloor q) ?= 1 # 2); [destruct (Z.even _) | |];
    lia.
Qed.

Lemma round_half_even_mono (p q : Q) :
  p <= q → (round_half_even p ≤ round_half_even q)%Z.
Proof.
  intros Hpq.
  pose proof (Qfloor_resp_le _ _ Hpq) as Hf.
  destruct (decide (Qfloor p = Qfloor q)) as [Heq | Hne].
  - unfold round_half_even. rewrite <- Heq.
    set (f := Qfloor p).
    destruct (Qcompare_spec (p - inject_Z f) (1 # 2)) as [He | Hl | Hg];
      destruct (Qcompare_spec (q - inject_Z f) (1 # 2)) as [He' | Hl' | Hg'];
      try destruct (Z.even f); try lia; exfalso; lra.
  - pose proof (round_half_even_range p). pose proof (round_half_even_range q).
    lia.
Qed.

Lemma round_half_even_Z (z : Z) : round_half_even (inject_Z z) = z.
Proof.
  unfold round_half_even. rewrite Qfloor_Z.
  destruct (Qcompare_spec (inject_Z z - inject_Z z) (1 # 2)) as [He | Hl | Hg];
    [exfalso; lra | done | exfalso; lra].
Qed.

Lemma round_half_even_comp (p q : Q) :
  p == q → round_half_even p = round_half_even q.
Proof.
  intros H. unfold round_half_even.
  rewrite (Qfloor_comp _ _ H).
  assert (p - inject_Z (Qfloor q) == q - inject_Z (Qfloor q)) as ->
    by (rewrite H; reflexivity).
  reflexivity.
Qed.

#[global] Instance py_round_comp : Proper (Qeq ==> eq ==> Qeq) py_round.
Proof.
  intros p q H n ? <-. unfold py_round.
  set (s := inject_Z (10 ^ Z.of_nat n)).
  rewrite (round_half_even_comp (p * s) (q * s)); [reflexivity |].
  rewrite H; reflexivity.
Qed.

(** [round(x, 2)] is [x] rounded to two decimals. *)
Lemma py_round_2dp (x : Q) : rounded_2dp x (py_round x 2).
Proof.
  exists (round_half_even (x * 100)).
  change (py_round x 2)
    with (inject_Z (round_half_even (x * inject_Z 100)) / inject_Z 100).
  change (inject_Z 100) with 100.
  split; [reflexivity |]. apply round_half_even_near.
Qed.

(** An amount that is a whole number is returned as it is. *)
Lemma py_round_Z (z : Z) (ndigits : nat) :
  py_round (inject_Z z) ndigits == inject_Z z.
Proof.
  unfold py_round.
  assert (0 < 10 ^ Z.of_nat ndigits)%Z as Hpos by (apply Z.pow_pos_nonneg; lia).
  set (s := (10 ^ Z.of_nat ndigits)%Z) in *.
  rewrite <- inject_Z_mult, round_half_even_Z, inject_Z_mult.
  pose proof (inject_Z_pos s Hpos).
  field. lra.
Qed.

Lemma py_round_mono (x y : Q) (ndigits : nat) :
  x <= y → py_round x ndigits <= py_round y ndigits.
Proof.
  intros Hxy. unfold py_round.
  assert (0 < 10 ^ Z.of_nat ndigits)%Z as Hpos by (apply Z.pow_pos_nonneg; lia).
  set (s := (10 ^ Z.of_nat ndigits)%Z) in *.
  pose proof (inject_Z_pos s Hpos) as Hs.
  assert (x * inject_Z s <= y * inject_Z s) as Hm
    by (apply Qmult_le_compat_r; lra).
  apply round_half_even_mono in Hm. rewrite Zle_Qle in Hm.
  apply Qmult_le_compat_r; [exact Hm |].
  apply Qlt_le_weak, Qinv_lt_0_compat, Hs.
Qed.
End rounding.

(** ** Dictionaries *)

Section dict_facts.
Context {V : Type}.
Implicit Types (d : dict V) (k : Z) (v : V).

Lemma dict_lookup_set_eq d k v : dict_lookup (dict_set d k v) k = Some v.
Proof.
  induction d as [| [k' v'] d IH]; simpl.
  - by rewrite decide_True.
  - destruct (decide (k = k')) as [-> | Hne]; simpl.
    + by rewrite decide_True.
    + by rewrite decide_False.
Qed.

Lemma dict_lookup_set_ne d k k' v :
  k ≠ k' → dict_lookup (dict_set d k v) k' = dict_lookup d k'.
Proof.
  intros Hne. induction d as [| [k0 v0] d IH]; simpl.
  - by rewrite decide_False.
  - destruct (decide (k = k0)) as [-> | Hne0]; simpl.
    + by rewrite !decide_False by done.
    + by rewrite IH.
Qed.

Lemma dict_lookup_None d k : dict_lookup d k = None ↔ k ∉ dict_keys d.
Proof.
  unfold dict_keys. induction d as [| [k' v'] d IH]; simpl.
  - split; [intros _; apply not_elem_of_nil | done].
  - rewrite not_elem_of_cons. destruct (decide (k = k')) as [-> | Hne].
    + split; [done | by intros [? _]].
    + rewrite IH. split; [by split | by intros [_ ?]].
Qed.

Lemma dict_lookup_is_Some d k : is_Some (dict_lookup d k) ↔ k ∈ dict_keys d.
Proof.
  rewrite <- not_eq_None_Some, dict_lookup_None.
  destruct (decide (k ∈ dict_keys d)); naive_solver.
Qed.

(** Assigning to a key the dictionary has leaves the order of its keys. *)
Lemma dict_keys_set d k v :
  is_Some (dict_lookup d k) → dict_keys (dict_set d k v) = dict_keys d.
Proof.
  induction d as [| [k' v'] d IH]; simpl.
  - by intros [? ?].
  - destruct (decide (k = k')) as [-> | Hne]; [done |].
    intros H. unfold dict_keys in *. rewrite !fmap_cons. by rewrite IH.
Qed.

Lemma dict_keys_init (f : Z → V) (l : list Z) :
  dict_keys ((λ i, (i, f i)) <$> l) = l.
Proof.
  unfold dict_keys. rewrite <- list_fmap_compose. apply list_fmap_id.
Qed.

Lemma dict_lookup_init (f : Z → V) (l : list Z) k :
  dict_lookup ((λ i, (i, f i)) <$> l) k
  = if decide (k ∈ l) then Some (f k) else None.
Proof.
  induction l as [| i l IH].
  - rewrite fmap_nil. by rewrite decide_False by apply not_elem_of_nil.
  - rewrite fmap_cons. cbn [dict_lookup].
    destruct (decide (k = i)) as [-> | Hne].
    + by rewrite decide_True by left.
    + rewrite IH. destruct (decide (k ∈ l)) as [Hin | Hnin].
      * by rewrite decide_True by (by right).
      * rewrite decide_False; [done |]. by rewrite not_elem_of_cons.
Qed.
End dict_facts.

(** With the keys [a, a+1, ..], the scan of [find_free_slot] stops at the
    least free key, and finds none exactly when every key is taken. *)
Lemma first_free_seqZ (d : dict (option vehicle)) (a len : Z) :
  dict_keys d = seqZ a len →
  match first_free d with
  | Some s =>
      a ≤ s < a + len ∧ dict_lookup d s = Some None
      ∧ ∀ k, a ≤ k < s → ∃ v, dict_lookup d k = Some (Some v)
  | None => ∀ k, a ≤ k < a + len → ∃ v, dict_lookup d k = Some (Some v)
  end.
Proof.
  revert a len. induction d as [| [k0 v0] d IH]; intros a len Hkeys; simpl.
  - intros k Hk. destruct (decide (0 < len)) as [Hlen | Hlen].
    + rewrite seqZ_cons in Hkeys by done. discriminate.
    + lia.
  - destruct (decide (0 < len)) as [Hlen | Hlen].
    2: { rewrite seqZ_nil in Hkeys by lia. discriminate. }
    rewrite seqZ_cons in Hkeys by done. simpl in Hkeys.
    injection Hkeys as -> Hkeys. specialize (IH _ _ Hkeys).
    destruct v0 as [v0 |].
    + destruct (first_free d) as [s |].
      * destruct IH as (Hs & Hfree & Hlow). split; [lia |]. split.
        -- by rewrite decide_False by lia.
        -- intros k Hk. destruct (decide (k = a)) as [-> | Hne]; [by eexists |].
           apply Hlow. lia.
      * intros k Hk. destruct (decide (k = a)) as [-> | Hne]; [by eexists |].
        apply IH. lia.
    + split; [lia |]. split; [by rewrite decide_True | intros k Hk; lia].
Qed.

(** ** The pricing table *)

Lemma default_pricing_lookup (k : string) :
  default_pricing !! k =
    if decide (k = "bike") then Some (Rates 10 5)
    else if decide (k = "car") then Some (Rates 20 10)
    else if decide (k = "ev") then Some (Rates 25 12)
    else if decide (k = "heavy") then Some (Rates 50 25)
    else None.
Proof.
  unfold default_pricing. rewrite !lookup_insert, lookup_empty.
  repeat case_decide; congruence.
Qed.

Lemma default_pricing_positive (k : string) (r : rates) :
  default_pricing !! k = Some r → 0 < base r ∧ 0 ≤ hourly r.
Proof.
  rewrite default_pricing_lookup.
  repeat case_decide; intros [= <-]; simpl; lia.
Qed.

(** ** Slots of a ledger that satisfies the invariant *)

Section slots.
Context (st : SmartParkingSystem) (Hinv : ledger_inv st).

Lemma slot_lookup_in_range (slot : Z) :
  is_Some (dict_lookup (parking_slots st) slot) ↔ slot_in_range st slot.
Proof using Hinv.
  rewrite dict_lookup_is_Some, (inv_keys _ Hinv), elem_of_seqZ.
  unfold slot_in_range. lia.
Qed.

Lemma slot_lookup_out_of_range (slot : Z) :
  ¬ slot_in_range st slot → dict_lookup (parking_slots st) slot = None.
Proof using Hinv.
  intros Hout. apply eq_None_not_Some. by rewrite slot_lookup_in_range.
Qed.

Lemma slot_free_in_range (slot : Z) :
  slot_free st slot → slot_in_range st slot.
Proof using Hinv.
  intros Hfree. apply slot_lookup_in_range. by rewrite Hfree.
Qed.

Lemma find_free_slot_Some (s : Z) :
  find_free_slot st = Some s →
  slot_free st s ∧ ∀ k, slot_free st k → s ≤ k.
Proof using Hinv.
  unfold find_free_slot. intros Hfind.
  pose proof (first_free_seqZ _ _ _ (inv_keys _ Hinv)) as H.
  rewrite Hfind in H. destruct H as (Hs & Hfree & Hlow).
  split; [exact Hfree |]. intros k Hk.
  destruct (decide (s ≤ k)) as [| Hlt]; [done |].
  pose proof (slot_free_in_range _ Hk) as [Hk1 _].
  destruct (Hlow k ltac:(lia)) as [v Hv].
  unfold slot_free in Hk. congruence.
Qed.

Lemma find_free_slot_None :
  find_free_slot st = None ↔ ∀ k, ¬ slot_free st k.
Proof using Hinv.
  unfold find_free_slot.
  pose proof (first_free_seqZ _ _ _ (inv_keys _ Hinv)) as H.
  split.
  - intros Hfind k Hk. rewrite Hfind in H.
    pose proof (slot_free_in_range _ Hk) as Hr.
    destruct (H k ltac:(unfold slot_in_range in Hr; lia)) as [v Hv].
    unfold slot_free in Hk. congruence.
  - intros Hnone. destruct (first_free (parking_slots st)) as [s |];
      [| done].
    destruct H as (_ & Hfree & _). by destruct (Hnone s).
Qed.
End slots.

Lemma slot_get_occupied (st : SmartParkingSystem) (slot : Z) (v : vehicle) :
  slot_get st slot = Some v ↔ slot_occupied_by st slot v.
Proof.
  unfold slot_get, slot_occupied_by.
  destruct (dict_lookup (parking_slots st) slot) as [[v' |] |]; simpl;
    split; congruence.
Qed.

Lemma slot_get_vacant (st : SmartParkingSystem) (slot : Z) :
  slot_get st slot = None ↔ ∀ v, ¬ slot_occupied_by st slot v.
Proof.
  unfold slot_get, slot_occupied_by.
  destruct (dict_lookup (parking_slots st) slot) as [[v' |] |]; simpl.
  - split; [done | intros H; by destruct (H v')].
  - split; [intros _ v; congruence | done].
  - split; [intros _ v; congruence | done].
Qed.

(** ** Charges *)

Section charges.
Local Open Scope Q_scope.

(** The amount before rounding is never under the base charge. *)
Lemma charges_at_least_base (r : rates) (d : Q) :
  (0 ≤ hourly r)%Z →
  inject_Z (base r)
  <= py_round
       (if Qle_bool d 2 then inject_Z (base r)
        else inject_Z (base r) + (d - 2) * inject_Z (hourly r)) 2.
Proof.
  intros Hh. destruct (Qle_bool d 2) eqn:Hd.
  - rewrite py_round_Z. apply Qle_refl.
  - assert (2 < d) as Hlt.
    { apply Qnot_le_lt. intros Hle. apply Qle_bool_iff in Hle. congruence. }
    rewrite <- (py_round_Z (base r) 2) at 1. apply py_round_mono.
    assert (0 <= inject_Z (hourly r)) as Hh'.
    { change 0 with (inject_Z 0). by rewrite <- Zle_Qle. }
    assert (0 <= (d - 2) * inject_Z (hourly r))
      by (apply Qmult_le_0_compat; lra).
    lra.
Qed.

End charges.

Lemma calculate_charges_occupied (st : SmartParkingSystem) (slot : Z)
    (now : datetime) (v : vehicle) (r : rates) :
  slot_occupied_by st slot v →
  pricing st !! vtype v = Some r →
  calculate_charges st slot now =
    Return
      (py_round
         (if Qle_bool (duration_hours now (entry_time v)) 2
          then inject_Z (base r)
          else (inject_Z (base r)
                + (duration_hours now (entry_time v) - 2)
                  * inject_Z (hourly r))%Q) 2,
       Some now).
Proof.
  intros Hocc Hr. unfold calculate_charges, pricing_item.
  apply slot_get_occupied in Hocc. rewrite Hocc, Hr. reflexivity.
Qed.

Lemma calculate_charges_vacant (st : SmartParkingSystem) (slot : Z)
    (now : datetime) :
  slot_get st slot = None → calculate_charges st slot now = Return (0%Q, None).
Proof. intros H. unfold calculate_charges. by rewrite H. Qed.

Lemma vehicle_exit_vacant (st : SmartParkingSystem) (slot : Z)
    (now : datetime) :
  slot_get st slot = None →
  vehicle_exit st slot now = Return (st, SlotEmptyOrInvalid slot).
Proof. intros H. unfold vehicle_exit. by rewrite H. Qed.

Lemma vehicle_exit_occupied (st : SmartParkingSystem) (slot : Z)
    (now : datetime) (v : vehicle) (r : rates) :
  slot_occupied_by st slot v →
  pricing st !! vtype v = Some r →
  ∃ charges,
    calculate_charges st slot now = Return (charges, Some now)
    ∧ vehicle_exit st slot now =
        Return
          ({| total_slots := total_slots st;
              parking_slots := dict_set (parking_slots st) slot None;
              revenue_today := (revenue_today st + charges)%Q;
              vehicles_today := vehicles_today st;
              daily_records := daily_records st;
              pricing := pricing st |},
           Exiting (vehicle_no v) (vtype v) slot (entry_time v) now
             (duration_hours now (entry_time v)) charges).
Proof.
  intros Hocc Hr.
  pose proof (calculate_charges_occupied st slot now v r Hocc Hr) as Hc.
  eexists. split; [exact Hc |].
  unfold vehicle_exit. rewrite Hc.
  apply slot_get_occupied in Hocc. rewrite Hocc. reflexivity.
Qed.

Lemma daily_report_Return (st : SmartParkingSystem) (now : datetime) :
  ∃ avg,
    ((if decide (vehicles_today st = 0) then Return 0%Q
      else py_div (revenue_today st) (vehicles_today st)) = Return avg)
    ∧ daily_report st now =
        Return
          ({| total_slots := total_slots st;
              parking_slots := parking_slots st;
              revenue_today := revenue_today st;
              vehicles_today := vehicles_today st;
              daily_records :=
                daily_records st
                ++ [Report now (vehicles_today st) (revenue_today st) avg
                      (count_occupied (dict_values (parking_slots st)))
                      (total_slots st)];
              pricing := pricing st |},
           Report now (vehicles_today st) (revenue_today st) avg
             (count_occupied (dict_values (parking_slots st)))
             (total_slots st)).
Proof.
  unfold daily_report, py_div.
  destruct (decide (vehicles_today st = 0)) as [Hz | Hnz].
  - exists 0%Q. split; reflexivity.
  - eexists. split; reflexivity.
Qed.

(** ** The invariant *)

Lemma init_inv (n : Z) : ledger_inv (init n).
Proof.
  split; simpl.
  - apply (dict_keys_init (λ _, None)).
  - reflexivity.
  - intros slot v. unfold slot_occupied_by. simpl.
    rewrite (dict_lookup_init (λ _, None)). by case_decide.
  - apply Qle_refl.
  - lia.
Qed.

Lemma set_slot_inv (st : SmartParkingSystem) (slot : Z) (data : option vehicle)
    (revenue : Q) (vehicles : Z) (records : list report) :
  ledger_inv st →
  is_Some (dict_lookup (parking_slots st) slot) →
  (∀ v, data = Some v → is_Some (pricing st !! vtype v)) →
  (0 <= revenue)%Q → 0 ≤ vehicles →
  ledger_inv
    {| total_slots := total_slots st;
       parking_slots := dict_set (parking_slots st) slot data;
       revenue_today := revenue;
       vehicles_today := vehicles;
       daily_records := records;
       pricing := pricing st |}.
Proof.
  intros Hinv Hslot Hdata Hrev Hveh. split; simpl; try done.
  - rewrite dict_keys_set by done. apply Hinv.
  - apply Hinv.
  - intros k v. unfold slot_occupied_by. simpl.
    destruct (decide (slot = k)) as [<- | Hne].
    + rewrite dict_lookup_set_eq. intros [= ->]. by apply Hdata.
    + rewrite dict_lookup_set_ne by done. apply Hinv.
Qed.

Lemma vehicle_entry_inv (st : SmartParkingSystem) (vehicle_no vehicle_type : string)
    (now : datetime) :
  ledger_inv st → ledger_inv (vehicle_entry st vehicle_no vehicle_type now).1.
Proof.
  intros Hinv. unfold vehicle_entry.
  destruct (pricing st !! vehicle_type) as [r |] eqn:Hr; [| done].
  destruct (find_free_slot st) as [s |] eqn:Hs; [| done].
  simpl. apply set_slot_inv; try done.
  - apply (find_free_slot_Some st Hinv) in Hs as [Hfree _]. by rewrite Hfree.
  - intros v [= <-]. simpl. by rewrite Hr.
  - apply Hinv.
  - pose proof (inv_vehicles _ Hinv). lia.
Qed.

(** A release from a ledger that satisfies the invariant goes through
    whenever the slot is taken, and charges at least the base rate. *)
Lemma vehicle_exit_inv (st : SmartParkingSystem) (slot : Z) (now : datetime)
    (v : vehicle) :
  ledger_inv st → slot_occupied_by st slot v →
  ∃ r charges st',
    pricing st !! vtype v = Some r
    ∧ calculate_charges st slot now = Return (charges, Some now)
    ∧ vehicle_exit st slot now =
        Return (st', Exiting (vehicle_no v) (vtype v) slot (entry_time v) now
                       (duration_hours now (entry_time v)) charges)
    ∧ (inject_Z (base r) <= charges)%Q ∧ 0 < base r
    ∧ revenue_today st' = (revenue_today st + charges)%Q
    ∧ parking_slots st' = dict_set (parking_slots st) slot None
    ∧ vehicles_today st' = vehicles_today st
    ∧ total_slots st' = total_slots st
    ∧ daily_records st' = daily_records st
    ∧ pricing st' = pricing st
    ∧ ledger_inv st'.
Proof.
  intros Hinv Hocc.
  destruct (inv_types _ Hinv _ _ Hocc) as [r Hr].
  pose proof Hr as Hpos. rewrite (inv_pricing _ Hinv) in Hpos.
  apply default_pricing_positive in Hpos as [Hb Hh].
  destruct (vehicle_exit_occupied st slot now v r Hocc Hr) as (c & Hc & Hexit).
  assert (inject_Z (base r) <= c)%Q as Hle.
  { rewrite (calculate_charges_occupied st slot now v r Hocc Hr) in Hc.
    injection Hc as <-. by apply charges_at_least_base. }
  eexists r, c, _. do 3 (split; [eassumption |]).
  split_and!; try done.
  apply set_slot_inv; try done.
  - pose proof (inv_revenue _ Hinv).
    assert (0 < inject_Z (base r))%Q by by apply inject_Z_pos.
    lra.
  - apply Hinv.
Qed.

Lemma daily_report_inv (st st' : SmartParkingSystem) (now : datetime)
    (r : report) :
  ledger_inv st → daily_report st now = Return (st', r) →
  ledger_inv st' ∧ revenue_today st' = revenue_today st.
Proof.
  intros Hinv Hrep.
  destruct (daily_report_Return st now) as (avg & _ & Heq).
  rewrite Heq in Hrep. injection Hrep as <- <-.
  split; [| done]. split; simpl; apply Hinv.
Qed.

(** ** Runs *)

Lemma release_charges_cons (o : output) (os : list output) :
  (Qsum (release_charges (o :: os))
   == Qsum (release_charges [o]) + Qsum (release_charges os))%Q.
Proof.
  destruct o as [m | c | [slot | ? ? ? ? ? ? c] | sv | r]; simpl; ring.
Qed.

(** No call raises on a ledger that satisfies the invariant; the revenue
    grows by the amount of the receipt, if the call is a release that goes
    through, and stays as it is otherwise. *)
Lemma step_inv (st : SmartParkingSystem) (c : call) :
  ledger_inv st →
  ∃ st' o,
    step st c = Return (st', o)
    ∧ ledger_inv st'
    ∧ (revenue_today st' == revenue_today st + Qsum (release_charges [o]))%Q
    ∧ (0 <= Qsum (release_charges [o]))%Q.
Proof.
  intros Hinv. destruct c as [vno vt now | slot now | slot now | now | now | now].
  - pose proof (vehicle_entry_inv st vno vt now Hinv) as Hinv'.
    simpl. destruct (vehicle_entry st vno vt now) as [st' m] eqn:He.
    exists st', (OutEntry m). split_and!; [done | done | | simpl; lra].
    unfold vehicle_entry in He.
    destruct (pricing st !! vt); [destruct (find_free_slot st) |];
      injection He as <- <-; simpl; ring.
  - destruct (slot_get st slot) as [v |] eqn:Hget.
    + apply slot_get_occupied in Hget.
      destruct (vehicle_exit_inv st slot now v Hinv Hget)
        as (r & ch & st' & _ & Hc & _).
      exists st, (OutCharges (ch, Some now)). simpl. rewrite Hc.
      split_and!; [done | done | simpl; ring | simpl; lra].
    + exists st, (OutCharges (0%Q, None)). simpl.
      rewrite calculate_charges_vacant by done.
      split_and!; [done | done | simpl; ring | simpl; lra].
  - destruct (slot_get st slot) as [v |] eqn:Hget.
    + apply slot_get_occupied in Hget.
      destruct (vehicle_exit_inv st slot now v Hinv Hget)
        as (r & ch & st' & _ & _ & Hexit & Hle & Hb & Hrev & _ & _ & _ & _ & _
            & Hinv').
      eexists st', _. simpl. rewrite Hexit.
      split_and!; [done | done | simpl; rewrite Hrev; ring |].
      assert (0 < inject_Z (base r))%Q by by apply inject_Z_pos.
      simpl. lra.
    + exists st, (OutExit (SlotEmptyOrInvalid slot)). simpl.
      rewrite vehicle_exit_vacant by done.
      split_and!; [done | done | simpl; ring | simpl; lra].
  - exists st, (OutStatus (display_status st now)).
    split_and!; [done | done | simpl; ring | simpl; lra].
  - destruct (daily_report_Return st now) as (avg & _ & Heq).
    destruct (daily_report_inv _ _ _ _ Hinv Heq) as [Hinv' Hrev].
    eexists _, _. simpl. rewrite Heq.
    split_and!; [done | done | simpl; ring | simpl; lra].
  - destruct (daily_report_Return st now) as (avg & _ & Heq).
    destruct (daily_report_inv _ _ _ _ Hinv Heq) as [Hinv' Hrev].
    eexists _, _. simpl. unfold save_report. rewrite Heq.
    split_and!; [done | done | simpl; ring | simpl; lra].
Qed.

Lemma run_inv (st : SmartParkingSystem) (cs : list call) :
  ledger_inv st →
  ∃ st' os,
    run st cs = Return (st', os)
    ∧ ledger_inv st'
    ∧ (revenue_today st' == revenue_today st + Qsum (release_charges os))%Q.
Proof.
  revert st. induction cs as [| c cs IH]; intros st Hinv.
  - exists st, []. split_and!; try done. simpl. ring.
  - destruct (step_inv st c Hinv) as (st1 & o & Hstep & Hinv1 & Hrev1 & _).
    destruct (IH st1 Hinv1) as (st2 & os & Hrun & Hinv2 & Hrev2).
    exists st2, (o :: os). split_and!; [| done |].
    + cbn [run]. rewrite Hstep. simpl. by rewrite Hrun.
    + pose proof (release_charges_cons o os). lra.
Qed.

Lemma reachable_inv (st : SmartParkingSystem) : reachable st → ledger_inv st.
Proof.
  intros (n & cs & os & Hrun).
  destruct (run_inv (init n) cs (init_inv n)) as (st' & os' & Hrun' & Hinv & _).
  rewrite Hrun in Hrun'. by injection Hrun' as -> _.
Qed.

Lemma two_parked_reachable : reachable two_parked.
Proof.
  exists 10, [VehicleEntry "KA01" "car" 0; VehicleEntry "KA02" "bike" 0].
  eexists. reflexivity.
Qed.

Lemma init_reachable (n : Z) : reachable (init n).
Proof. by exists n, [], []. Qed.

(** ** Charge computation *)

(** ** Admission *)

(** C2.  On a ledger the calls can produce, [vehicle_entry] answers with
    the invalid-type message exactly when the type is not a key of the
    pricing table; otherwise with the parking-full message exactly when no
    slot is free; in both cases the ledger is unchanged.  Otherwise it
    succeeds: the vehicle is written with the current time into the free
    slot of lowest index, the other slots keep their content, and the
    vehicle counter grows by one. *)
Theorem vehicle_entry_outcome (st : SmartParkingSystem)
    (vehicle_no vehicle_type : string) (now : datetime) :
  reachable st →
  ∃ st' m,
    vehicle_entry st vehicle_no vehicle_type now = (st', m)
    ∧ (m = InvalidVehicleType vehicle_type ↔ pricing st !! vehicle_type = None)
    ∧ (m = ParkingFull ↔
       is_Some (pricing st !! vehicle_type) ∧ no_free_slot st)
    ∧ (m = InvalidVehicleType vehicle_type ∨ m = ParkingFull → st' = st)
    ∧ (is_Some (pricing st !! vehicle_type) → ¬ no_free_slot st →
       ∃ s,
         m = Parked vehicle_no vehicle_type s now
         ∧ lowest_free_slot st s
         ∧ slot_occupied_by st' s (Vehicle vehicle_no vehicle_type now)
         ∧ (∀ k, k ≠ s →
              dict_lookup (parking_slots st') k
              = dict_lookup (parking_slots st) k)
         ∧ vehicles_today st' = vehicles_today st + 1
         ∧ revenue_today st' = revenue_today st
         ∧ total_slots st' = total_slots st
         ∧ daily_records st' = daily_records st
         ∧ pricing st' = pricing st).
Proof.
  intros Hreach. apply reachable_inv in Hreach as Hinv.
  unfold vehicle_entry.
  destruct (pricing st !! vehicle_type) as [r |] eqn:Hr.
  - destruct (find_free_slot st) as [s |] eqn:Hfind.
    + apply (find_free_slot_Some st Hinv) in Hfind as [Hfree Hlow].
      eexists _, _. split; [reflexivity |]. split_and!.
      * split; discriminate.
      * split; [discriminate |]. intros [_ Hnone]. by destruct (Hnone s).
      * intros [? | ?]; discriminate.
      * intros _ _. exists s. split_and!; try done.
        -- unfold slot_occupied_by. simpl. apply dict_lookup_set_eq.
        -- intros k Hk. simpl. by apply dict_lookup_set_ne.
    + pose proof (proj1 (find_free_slot_None st Hinv) Hfind) as Hnone.
      exists st, ParkingFull. split_and!; done.
  - exists st, (InvalidVehicleType vehicle_type). split_and!; try done.
    split; [discriminate |]. by intros [[? ?] _].
Qed.

Lemma vehicle_entry_outcome_witness :
  ∃ st' m,
    vehicle_entry two_parked "KA03" "ev" hour = (st', m)
    ∧ (m = InvalidVehicleType "ev" ↔ pricing two_parked !! "ev" = None)
    ∧ (m = ParkingFull ↔
       is_Some (pricing two_parked !! "ev") ∧ no_free_slot two_parked)
    ∧ (m = InvalidVehicleType "ev" ∨ m = ParkingFull → st' = two_parked)
    ∧ (is_Some (pricing two_parked !! "ev") → ¬ no_free_slot two_parked →
       ∃ s,
         m = Parked "KA03" "ev" s hour
         ∧ lowest_free_slot two_parked s
         ∧ slot_occupied_by st' s (Vehicle "KA03" "ev" hour)
         ∧ (∀ k, k ≠ s →
              dict_lookup (parking_slots st') k
              = dict_lookup (parking_slots two_parked) k)
         ∧ vehicles_today st' = vehicles_today two_parked + 1
         ∧ revenue_today st' = revenue_today two_parked
         ∧ total_slots st' = total_slots two_parked
         ∧ daily_records st' = daily_records two_parked
         ∧ pricing st' = pricing two_parked).
Proof.
  apply (vehicle_entry_outcome two_parked "KA03" "ev" hour).
  exact two_parked_reachable.
Defined.

(** ** Release *)

(** C3.  On a ledger the calls can produce, [vehicle_exit] on a slot that
    is outside [1, total_slots] or that is free (emptied or never taken)
    answers with the empty-or-invalid message and returns the ledger as
    it was: slot table, revenue, vehicle counter and reports. *)
Theorem vehicle_exit_empty (st : SmartParkingSystem) (slot : Z)
    (now : datetime) :
  reachable st →
  ¬ slot_in_range st slot ∨ slot_free st slot →
  vehicle_exit st slot now = Return (st, SlotEmptyOrInvalid slot).
Proof.
  intros Hreach Hslot. apply reachable_inv in Hreach as Hinv.
  apply vehicle_exit_vacant. unfold slot_get.
  destruct Hslot as [Hout | Hfree].
  - by rewrite (slot_lookup_out_of_range st Hinv).
  - unfold slot_free in Hfree. by rewrite Hfree.
Qed.

Lemma vehicle_exit_empty_witness :
  vehicle_exit two_parked 11 hour = Return (two_parked, SlotEmptyOrInvalid 11).
Proof.
  apply (vehicle_exit_empty two_parked 11 hour).
  - exact two_parked_reachable.
  - left. unfold slot_in_range. change (total_slots two_parked) with 10. lia.
Defined.

(** C4, as the code has it.  On a slot that holds no vehicle (free, or not
    a slot of the facility) [calculate_charges] does not fail: it returns
    the amount [0.0] paired with [None] in place of the exit time. *)
Theorem calculate_charges_empty (st : SmartParkingSystem) (slot : Z)
    (now : datetime) :
  slot_vacant st slot →
  calculate_charges st slot now = Return (0%Q, None)
  ∧ ¬ raises (calculate_charges st slot now).
Proof.
  intros Hvac. apply slot_get_vacant in Hvac.
  rewrite calculate_charges_vacant by done. split; [done | by intros []].
Qed.

Lemma calculate_charges_empty_witness :
  calculate_charges two_parked 3 hour = Return (0%Q, None)
  ∧ ¬ raises (calculate_charges two_parked 3 hour).
Proof.
  apply (calculate_charges_empty two_parked 3 hour).
  intros v Hv. discriminate Hv.
Defined.

(** C4, as the claim has it, fails on a fresh ledger of ten slots: slot 1
    holds no vehicle and the computation returns a number, not a failure. *)
Lemma calculate_charges_empty_is_numeric :
  slot_vacant (init 10) 1
  ∧ calculate_charges (init 10) 1 0 = Return (0%Q, None)
  ∧ ¬ raises (calculate_charges (init 10) 1 0).
Proof.
  split_and!.
  - intros v Hv. discriminate Hv.
  - reflexivity.
  - intros [].
Qed.

(** C5.  Releasing an occupied slot of a ledger the calls can produce goes
    through and leaves the slot free; an admission with a configured type
    that follows at once succeeds, at that slot or a lower one, and at
    that slot when no lower slot was free. *)
Theorem exit_then_entry (st : SmartParkingSystem) (slot : Z) (v : vehicle)
    (now now' : datetime) (vehicle_no vehicle_type : string) :
  reachable st → slot_occupied_by st slot v →
  is_Some (pricing st !! vehicle_type) →
  ∃ st1 receipt s st2,
    vehicle_exit st slot now = Return (st1, receipt)
    ∧ slot_free st1 slot
    ∧ vehicle_entry st1 vehicle_no vehicle_type now'
      = (st2, Parked vehicle_no vehicle_type s now')
    ∧ s ≤ slot
    ∧ ((∀ k, k < slot → ¬ slot_free st k) →
       s = slot
       ∧ slot_occupied_by st2 slot (Vehicle vehicle_no vehicle_type now')).
Proof.
  intros Hreach Hocc [r Hr]. apply reachable_inv in Hreach as Hinv.
  destruct (vehicle_exit_inv st slot now v Hinv Hocc)
    as (r0 & ch & st1 & _ & _ & Hexit & _ & _ & _ & Hslots & _ & _ & _ & Hpr
        & Hinv1).
  assert (slot_free st1 slot) as Hfree.
  { unfold slot_free. rewrite Hslots. apply dict_lookup_set_eq. }
  destruct (find_free_slot st1) as [s |] eqn:Hfind.
  2: { by destruct (proj1 (find_free_slot_None st1 Hinv1) Hfind slot). }
  eexists st1, _, s, _. split; [exact Hexit |]. split; [exact Hfree |].
  unfold vehicle_entry. rewrite Hpr, Hr, Hfind.
  split; [reflexivity |].
  apply (find_free_slot_Some st1 Hinv1) in Hfind as [Hs Hlow].
  split; [by apply Hlow |].
  intros Hnone.
  assert (s = slot) as ->.
  { destruct (decide (s = slot)) as [| Hne]; [done | exfalso].
    specialize (Hlow slot Hfree). apply (Hnone s); [lia |].
    unfold slot_free in *. rewrite Hslots in Hs.
    by rewrite dict_lookup_set_ne in Hs. }
  split; [done |]. unfold slot_occupied_by. simpl. apply dict_lookup_set_eq.
Qed.

Lemma exit_then_entry_witness :
  ∃ st1 receipt s st2,
    vehicle_exit two_parked 1 hour = Return (st1, receipt)
    ∧ slot_free st1 1
    ∧ vehicle_entry st1 "KA03" "heavy" hour = (st2, Parked "KA03" "heavy" s hour)
    ∧ s ≤ 1
    ∧ ((∀ k, k < 1 → ¬ slot_free two_parked k) →
       s = 1 ∧ slot_occupied_by st2 1 (Vehicle "KA03" "heavy" hour)).
Proof.
  apply (exit_then_entry two_parked 1 (Vehicle "KA01" "car" 0) hour hour
           "KA03" "heavy").
  - exact two_parked_reachable.
  - reflexivity.
  - eexists. reflexivity.
Defined.

(** ** Daily report *)


Lemma filter_ext_elem {A} (P Q : A → Prop) `{∀ x, Decision (P x)}
    `{∀ x, Decision (Q x)} (l : list A) :
  (∀ x, x ∈ l → P x ↔ Q x) → filter P l = filter Q l.
Proof.
  induction l as [| x l IH]; intros Hext; [done |].
  rewrite !filter_cons.
  rewrite IH by (intros y Hy; apply Hext; by right).
  pose proof (Hext x ltac:(left)) as Hx.
  destruct (decide (P x)), (decide (Q x));
    [done | exfalso; tauto | exfalso; tauto | done].
Qed.

(** Counting the values that are not [None] counts the keys that hold a
    vehicle. *)
Lemma count_occupied_seqZ (d : dict (option vehicle)) (a len : Z) :
  dict_keys d = seqZ a len →
  count_occupied (dict_values d)
  = Z.of_nat
      (length (filter (λ k, is_Some (default None (dict_lookup d k)))
                 (seqZ a len))).
Proof.
  revert a len. induction d as [| [k0 v0] d IH]; intros a len Hkeys.
  - destruct (decide (0 < len)) as [Hlen | Hlen].
    + rewrite seqZ_cons in Hkeys by done. discriminate.
    + by rewrite seqZ_nil by lia.
  - destruct (decide (0 < len)) as [Hlen | Hlen].
    2: { rewrite seqZ_nil in Hkeys by lia. discriminate. }
    rewrite seqZ_cons in Hkeys |- * by done.
    unfold dict_keys in Hkeys. rewrite fmap_cons in Hkeys.
    injection Hkeys as -> Hkeys. specialize (IH _ _ Hkeys).
    unfold dict_values in *. rewrite fmap_cons. cbn [count_occupied snd].
    assert (filter (λ k, is_Some (default None (dict_lookup ((a, v0) :: d) k)))
              (seqZ (Z.succ a) (Z.pred len))
            = filter (λ k, is_Some (default None (dict_lookup d k)))
                (seqZ (Z.succ a) (Z.pred len))) as Htail.
    { apply filter_ext_elem. intros k Hk. apply elem_of_seqZ in Hk.
      cbn [dict_lookup]. by rewrite decide_False by lia. }
    destruct v0 as [v0 |].
    + rewrite filter_cons_True, Htail, IH.
      * cbn [length]. lia.
      * cbn [dict_lookup]. by rewrite decide_True.
    + rewrite filter_cons_False, Htail; [exact IH |].
      cbn [dict_lookup]. rewrite decide_True by done. by intros [? ?].
Qed.

(** C8.  The peak occupancy [daily_report] reports is the number of slots
    that hold a vehicle in the ledger the report is made from. *)
Theorem daily_report_peak (st : SmartParkingSystem) (now : datetime) :
  reachable st →
  ∃ st' r,
    daily_report st now = Return (st', r)
    ∧ rep_peak r = Z.of_nat (length (occupied_slots st)).
Proof.
  intros Hreach. apply reachable_inv in Hreach as Hinv.
  destruct (daily_report_Return st now) as (avg & _ & Heq).
  eexists _, _. split; [exact Heq |]. simpl.
  apply count_occupied_seqZ, Hinv.
Qed.

Lemma daily_report_peak_witness :
  ∃ st' r,
    daily_report two_parked hour = Return (st', r)
    ∧ rep_peak r = Z.of_nat (length (occupied_slots two_parked)).
Proof.
  apply (daily_report_peak two_parked hour). exact two_parked_reachable.
Defined.

(** The reported peak is the occupancy of the moment: after two admissions
    and one release the report says 1, though 2 slots were taken before. *)
Example peak_is_not_a_maximum :
  ∃ st os,
    run two_parked [VehicleExit 1 hour; DailyReport hour] = Return (st, os)
    ∧ length (occupied_slots two_parked) = 2%nat
    ∧ rep_peak <$> last (daily_records st) = Some 1.
Proof. eexists _, _. split_and!; reflexivity. Qed.

(** ** Pricing *)

(** C9.  In every ledger the calls can produce the pricing table is the
    one the constructor sets: bike 10 and 5, car 20 and 10, ev 25 and 12,
    heavy 50 and 25, and no other key. *)
Theorem pricing_table (st : SmartParkingSystem) :
  reachable st →
  pricing st !! "bike" = Some (Rates 10 5)
  ∧ pricing st !! "car" = Some (Rates 20 10)
  ∧ pricing st !! "ev" = Some (Rates 25 12)
  ∧ pricing st !! "heavy" = Some (Rates 50 25)
  ∧ ∀ k, is_Some (pricing st !! k) → k ∈ ["bike"; "car"; "ev"; "heavy"].
Proof.
  intros Hreach. apply reachable_inv in Hreach as Hinv.
  rewrite (inv_pricing _ Hinv). split_and!; try reflexivity.
  intros k. rewrite default_pricing_lookup.
  repeat case_decide; subst; intros Hk; set_solver.
Qed.

Lemma pricing_table_witness :
  pricing two_parked !! "bike" = Some (Rates 10 5)
  ∧ pricing two_parked !! "car" = Some (Rates 20 10)
  ∧ pricing two_parked !! "ev" = Some (Rates 25 12)
  ∧ pricing two_parked !! "heavy" = Some (Rates 50 25)
  ∧ ∀ k, is_Some (pricing two_parked !! k) → k ∈ ["bike"; "car"; "ev"; "heavy"].
Proof. apply (pricing_table two_parked). exact two_parked_reachable. Defined.

(** ** Least charge *)




(** ** Scenarios *)

(** A car admitted to a fresh facility of ten slots takes slot 1 and pays
    the base charge of 20 after one hour. *)
Example car_one_hour :
  (vehicle_entry (init 10) "KA01" "car" 0).2 = Parked "KA01" "car" 1 0
  ∧ receipt_amount
      (vehicle_exit (vehicle_entry (init 10) "KA01" "car" 0).1 1 hour)
    = Some 20%Q.
Proof. split; reflexivity. Qed.

(** A bike pays 10 + 1 * 5 after three hours. *)
Example bike_three_hours :
  receipt_amount (vehicle_exit two_parked 2 (3 * hour)) = Some 15%Q.
Proof. reflexivity. Qed.

(** A bike that stays 2 hours and 45 seconds owes 10.0625, charged 10.06. *)
Example bike_two_hours_45_seconds :
  receipt_amount (vehicle_exit two_parked 2 (2 * hour + 45000000))
  = Some (Qred (1006 # 100)).
Proof. reflexivity. Qed.

(** Exact halves of a hundredth go to the even hundredth. *)
Example round_ties :
  (py_round (20125 # 1000) 2 == 2012 # 100)%Q
  ∧ (py_round (20135 # 1000) 2 == 2014 # 100)%Q
  ∧ (py_round (- (20125 # 1000)) 2 == - (2012 # 100))%Q.
Proof. split_and!; reflexivity. Qed.

(** With ten cars in ten slots an eleventh car is refused; the type is
    looked up before a slot is searched. *)
Example eleventh_car_refused :
  match run (init 10) ten_cars with
  | Return (st, _) =>
      find_free_slot st = None
      ∧ (vehicle_entry st "KA11" "car" 10).2 = ParkingFull
      ∧ (vehicle_entry st "KA11" "truck" 10).2 = InvalidVehicleType "truck"
  | Raise _ => False
  end.
Proof. vm_compute. split_and!; reflexivity. Qed.

(** An unknown type takes no slot. *)
Example truck_rejected :
  vehicle_entry (init 10) "KA01" "truck" 0
  = (init 10, InvalidVehicleType "truck").
Proof. reflexivity. Qed.

(** A report with no vehicle served gives the average 0. *)
Example no_vehicle_average :
  rep_avg <$> last (daily_records (init 10)) = None
  ∧ ∃ st r, daily_report (init 10) 0 = Return (st, r) ∧ rep_avg r = 0%Q
      ∧ daily_records st = [r].
Proof. split; [reflexivity |]. eexists _, _. split_and!; reflexivity. Qed.

(** ** More on dictionaries *)

Section dict_more.
Context {V : Type}.
Implicit Types (d : dict V) (k : Z) (v : V).



(** A loop over the items of a dictionary with distinct keys is a loop
    over its keys that looks each one up. *)
Lemma dict_omap_keys {B} (g : Z → V → option B) d :
  NoDup (dict_keys d) →
  omap (λ '(k, x), g k x) d
  = omap (λ k, dict_lookup d k ≫= g k) (dict_keys d).
Proof.
  unfold dict_keys. induction d as [| [k0 v0] d IH]; intros Hnd; [done |].
  rewrite fmap_cons in Hnd. apply NoDup_cons in Hnd as [Hk0 Hnd].
  rewrite fmap_cons. cbn [omap list_omap dict_lookup fst].
  rewrite decide_True by done. cbn [mbind option_bind].
  rewrite (IH Hnd).
  assert (omap (λ k, dict_lookup d k ≫= g k) d.*1
          = omap (λ k, (if decide (k = k0) then Some v0 else dict_lookup d k)
                       ≫= g k) d.*1) as ->; [| done].
  apply list_omap_ext.
  clear IH Hnd. induction (d.*1) as [| k l IHl]; [constructor |].
  apply not_elem_of_cons in Hk0 as [Hne Hk0].
  constructor; [| by apply IHl].
  by rewrite decide_False.
Qed.
End dict_more.

(** An assignment to a slot changes the count of occupied slots by what
    the slot held and what it holds now. *)
Lemma count_occupied_set (d : dict (option vehicle)) (k : Z)
    (old new : option vehicle) :
  dict_lookup d k = Some old →
  count_occupied (dict_values (dict_set d k new))
  = count_occupied (dict_values d) - occupied old + occupied new.
Proof.
  unfold dict_values.
  induction d as [| [k0 v0] d IH]; cbn [dict_lookup dict_set]; [done |].
  destruct (decide (k = k0)) as [-> | Hne].
  - intros [= ->]. rewrite !fmap_cons. cbn [count_occupied snd].
    destruct old, new; cbn [occupied]; lia.
  - intros H. rewrite !fmap_cons. cbn [count_occupied snd]. rewrite (IH H).
    destruct v0; lia.
Qed.

(** ** What a call leaves as it is *)

Lemma parked_slots_cons (o : output) (os : list output) :
  parked_slots (o :: os) = parked_slots [o] ++ parked_slots os.
Proof. by destruct o as [[] | | | |]. Qed.

Lemma returned_reports_cons (o : output) (os : list output) :
  returned_reports (o :: os) = returned_reports [o] ++ returned_reports os.
Proof. by destruct o. Qed.

Lemma release_charges_length_cons (o : output) (os : list output) :
  length (release_charges (o :: os))
  = (length (release_charges [o]) + length (release_charges os))%nat.
Proof. by destruct o as [| | [] | |]. Qed.

(** One call on a ledger that satisfies the invariant: the capacity stays,
    the vehicle counter grows by the admissions, the occupied slots by the
    admissions less the releases, and the history by the reports. *)
Ltac frame_simpl :=
  cbn [parked_slots release_charges returned_reports length total_slots
       parking_slots vehicles_today daily_records revenue_today pricing].

Lemma step_frame (st : SmartParkingSystem) (c : call) :
  ledger_inv st →
  ∃ st' o,
    step st c = Return (st', o)
    ∧ ledger_inv st'
    ∧ total_slots st' = total_slots st
    ∧ vehicles_today st' = vehicles_today st + Z.of_nat (length (parked_slots [o]))
    ∧ count_occupied (dict_values (parking_slots st'))
      = count_occupied (dict_values (parking_slots st))
        + Z.of_nat (length (parked_slots [o]))
        - Z.of_nat (length (release_charges [o]))
    ∧ daily_records st' = daily_records st ++ returned_reports [o].
Proof.
  intros Hinv.
  destruct c as [vno vt now | slot now | slot now | now | now | now].
  - pose proof (vehicle_entry_inv st vno vt now Hinv) as Hinv'.
    cbn [step]. unfold vehicle_entry in *.
    destruct (pricing st !! vt) as [r |].
    2: { eexists _, _. split; [reflexivity |]. frame_simpl.
         rewrite app_nil_r. split_and!; [done | done | lia | lia | done]. }
    destruct (find_free_slot st) as [s |] eqn:Hfind.
    2: { eexists _, _. split; [reflexivity |]. frame_simpl.
         rewrite app_nil_r. split_and!; [done | done | lia | lia | done]. }
    apply (find_free_slot_Some st Hinv) in Hfind as [Hfree _].
    eexists _, _. split; [reflexivity |]. frame_simpl.
    rewrite app_nil_r. split_and!; [done | done | lia | | done].
    rewrite (count_occupied_set _ _ None) by exact Hfree. frame_simpl. cbn [occupied]. lia.
  - destruct (step_inv st (CalculateCharges slot now) Hinv)
      as (st' & o & Hstep & Hinv' & _).
    exists st', o. split; [exact Hstep |]. cbn [step] in Hstep.
    destruct (calculate_charges st slot now) as [a |]; [| done].
    injection Hstep as <- <-. frame_simpl. rewrite app_nil_r.
    split_and!; [done | done | lia | lia | done].
  - destruct (slot_get st slot) as [v |] eqn:Hget.
    + apply slot_get_occupied in Hget.
      destruct (vehicle_exit_inv st slot now v Hinv Hget)
        as (r & ch & st' & _ & _ & Hexit & _ & _ & _ & Hslots & Hveh & Htot
            & Hrec & _ & Hinv').
      eexists st', _. cbn [step]. rewrite Hexit. split; [reflexivity |].
      frame_simpl. rewrite app_nil_r. split_and!; [done | done | lia | | done].
      rewrite Hslots, (count_occupied_set _ _ (Some v)) by exact Hget.
      frame_simpl. cbn [occupied]. lia.
    + exists st, (OutExit (SlotEmptyOrInvalid slot)). cbn [step].
      rewrite vehicle_exit_vacant by done. split; [reflexivity |].
      frame_simpl. rewrite app_nil_r. split_and!; [done | done | lia | lia | done].
  - eexists _, _. split; [reflexivity |]. frame_simpl. rewrite app_nil_r.
    split_and!; [done | done | lia | lia | done].
  - destruct (daily_report_Return st now) as (avg & _ & Heq).
    destruct (daily_report_inv _ _ _ _ Hinv Heq) as [Hinv' _].
    eexists _, _. cbn [step]. rewrite Heq. split; [reflexivity |].
    frame_simpl. split_and!; [done | done | lia | lia | done].
  - destruct (daily_report_Return st now) as (avg & _ & Heq).
    destruct (daily_report_inv _ _ _ _ Hinv Heq) as [Hinv' _].
    eexists _, _. cbn [step]. unfold save_report. rewrite Heq.
    split; [reflexivity |].
    frame_simpl. split_and!; [done | done | lia | lia | done].
Qed.

Lemma run_frame (st : SmartParkingSystem) (cs : list call) :
  ledger_inv st →
  ∃ st' os,
    run st cs = Return (st', os)
    ∧ ledger_inv st'
    ∧ total_slots st' = total_slots st
    ∧ vehicles_today st' = vehicles_today st + Z.of_nat (length (parked_slots os))
    ∧ count_occupied (dict_values (parking_slots st'))
      = count_occupied (dict_values (parking_slots st))
        + Z.of_nat (length (parked_slots os))
        - Z.of_nat (length (release_charges os))
    ∧ daily_records st' = daily_records st ++ returned_reports os
    ∧ length os = length cs.
Proof.
  revert st. induction cs as [| c cs IH]; intros st Hinv.
  - exists st, []. cbn. rewrite app_nil_r.
    split_and!; [done | done | done | lia | lia | done | done].
  - destruct (step_frame st c Hinv)
      as (st1 & o & Hstep & Hinv1 & Ht1 & Hv1 & Hc1 & Hr1).
    destruct (IH st1 Hinv1) as (st2 & os & Hrun & Hinv2 & Ht2 & Hv2 & Hc2 & Hr2 & Hlen).
    exists st2, (o :: os). split.
    { cbn [run]. rewrite Hstep. cbn. by rewrite Hrun. }
    rewrite parked_slots_cons, returned_reports_cons,
      release_charges_length_cons, length_app.
    split_and!; [done | congruence | lia | lia | | cbn; lia].
    by rewrite Hr2, Hr1, app_assoc.
Qed.

(** ** The fresh ledger *)

Lemma count_occupied_init (l : list Z) :
  count_occupied (dict_values ((λ i, (i, @None vehicle)) <$> l)) = 0.
Proof.
  unfold dict_values. induction l as [| i l IH]; [done |].
  rewrite !fmap_cons. exact IH.
Qed.

Lemma occupied_slots_count (st : SmartParkingSystem) :
  ledger_inv st →
  Z.of_nat (length (occupied_slots st))
  = count_occupied (dict_values (parking_slots st)).
Proof.
  intros Hinv. symmetry. apply count_occupied_seqZ, Hinv.
Qed.

(** X1.  A ledger built for [n] slots has exactly the slots 1 to [n], all
    free; for [n <= 0] it has none.  Its first free slot is 1 when there
    is one, nothing has been earned or counted and no report is kept. *)
Theorem init_fresh (n slot : Z) :
  (slot_free (init n) slot ↔ 1 ≤ slot ≤ n)
  ∧ slot_vacant (init n) slot
  ∧ find_free_slot (init n) = (if decide (1 ≤ n) then Some 1 else None)
  ∧ occupied_slots (init n) = []
  ∧ revenue_today (init n) = 0%Q
  ∧ vehicles_today (init n) = 0
  ∧ daily_records (init n) = [].
Proof.
  split_and!; try reflexivity.
  - unfold slot_free. cbn [init parking_slots].
    rewrite (dict_lookup_init (λ _, None)).
    destruct (decide (slot ∈ seqZ 1 n)) as [Hin | Hout];
      rewrite elem_of_seqZ in *; split; (done || lia).
  - intros v. unfold slot_occupied_by. cbn [init parking_slots].
    rewrite (dict_lookup_init (λ _, None)). by case_decide.
  - unfold find_free_slot. cbn [init parking_slots].
    destruct (decide (1 ≤ n)) as [Hn | Hn].
    + rewrite seqZ_cons by lia. reflexivity.
    + rewrite seqZ_nil by lia. reflexivity.
  - pose proof (occupied_slots_count (init n) (init_inv n)) as H.
    cbn [init parking_slots] in H. rewrite count_occupied_init in H.
    destruct (occupied_slots (init n)); [done | cbn in H; lia].
Qed.

(** X2.  A facility built with no slot ([total_slots <= 0]) never admits:
    every call of [vehicle_entry] is refused and leaves the ledger as it
    is. *)
Theorem no_capacity_never_parks (st : SmartParkingSystem)
    (vehicle_no vehicle_type : string) (now : datetime) :
  reachable st → total_slots st ≤ 0 →
  vehicle_entry st vehicle_no vehicle_type now
  = (st, InvalidVehicleType vehicle_type)
  ∨ vehicle_entry st vehicle_no vehicle_type now = (st, ParkingFull).
Proof.
  intros Hreach Hcap. apply reachable_inv in Hreach as Hinv.
  unfold vehicle_entry.
  destruct (pricing st !! vehicle_type) as [r |]; [| by left].
  destruct (find_free_slot st) as [s |] eqn:Hfind; [| by right].
  apply (find_free_slot_Some st Hinv) in Hfind as [Hfree _].
  apply (slot_free_in_range st Hinv) in Hfree.
  unfold slot_in_range in Hfree. lia.
Qed.

Lemma no_capacity_never_parks_witness :
  vehicle_entry (init 0) "KA01" "car" 0 = (init 0, InvalidVehicleType "car")
  ∨ vehicle_entry (init 0) "KA01" "car" 0 = (init 0, ParkingFull).
Proof.
  apply (no_capacity_never_parks (init 0) "KA01" "car" 0).
  - exact (init_reachable 0).
  - simpl. lia.
Defined.

(** ** What holds through every run *)

(** X3.  No call adds or removes a slot: after any calls on a ledger built
    for [n] slots the capacity is [n] and the slot table has the keys 1 to
    [n] in ascending order. *)
Theorem capacity_is_fixed (n : Z) (cs : list call) :
  ∃ st os,
    run (init n) cs = Return (st, os)
    ∧ length os = length cs
    ∧ total_slots st = n
    ∧ dict_keys (parking_slots st) = seqZ 1 n.
Proof.
  destruct (run_frame (init n) cs (init_inv n))
    as (st & os & Hrun & Hinv & Htot & _ & _ & _ & Hlen).
  exists st, os. split_and!; try done.
  rewrite (inv_keys _ Hinv). by rewrite Htot.
Qed.

(** X4.  After any calls on a fresh ledger the vehicle counter is the
    number of admissions that went through, and each of them is either
    still parked or was released: the counter is the number of occupied
    slots plus the number of releases; the occupied slots are never more
    than the capacity. *)
Theorem vehicles_accounting (n : Z) (cs : list call) :
  ∃ st os,
    run (init n) cs = Return (st, os)
    ∧ vehicles_today st = Z.of_nat (length (parked_slots os))
    ∧ vehicles_today st
      = Z.of_nat (length (occupied_slots st))
        + Z.of_nat (length (release_charges os))
    ∧ Z.of_nat (length (occupied_slots st)) ≤ Z.max 0 n.
Proof.
  destruct (run_frame (init n) cs (init_inv n))
    as (st & os & Hrun & Hinv & Htot & Hveh & Hocc & _).
  exists st, os. cbn [init vehicles_today parking_slots] in Hveh, Hocc.
  rewrite count_occupied_init in Hocc.
  rewrite (occupied_slots_count st Hinv).
  split_and!; [done | lia | lia |].
  rewrite <- (occupied_slots_count st Hinv). unfold occupied_slots.
  pose proof (length_filter (λ slot, is_Some (slot_get st slot))
                (seqZ 1 (total_slots st))) as Hle.
  rewrite length_seqZ in Hle. rewrite Htot in Hle |- *.
  cbn [init total_slots] in Hle |- *. lia.
Qed.

(** X5.  The history a ledger keeps is the reports its calls returned, in
    the order they were made: after any calls on a fresh ledger
    [daily_records] is the list of the reports [daily_report] and
    [save_report] produced. *)
Theorem history_is_returned_reports (n : Z) (cs : list call) :
  ∃ st os,
    run (init n) cs = Return (st, os)
    ∧ daily_records st = returned_reports os.
Proof.
  destruct (run_frame (init n) cs (init_inv n))
    as (st & os & Hrun & _ & _ & _ & _ & Hrec & _).
  by exists st, os.
Qed.

(** ** More on releases *)



(** X7.  A slot is charged once: after a release that went through, a
    second release of the same slot is answered with the empty-or-invalid
    message and changes nothing, and the charge quoted for it is 0. *)
Theorem no_double_release (st : SmartParkingSystem) (slot : Z) (v : vehicle)
    (now now' : datetime) :
  reachable st → slot_occupied_by st slot v →
  ∃ st' receipt,
    vehicle_exit st slot now = Return (st', receipt)
    ∧ vehicle_exit st' slot now' = Return (st', SlotEmptyOrInvalid slot)
    ∧ calculate_charges st' slot now' = Return (0%Q, None).
Proof.
  intros Hreach Hocc. apply reachable_inv in Hreach as Hinv.
  destruct (vehicle_exit_inv st slot now v Hinv Hocc)
    as (r & ch & st' & _ & _ & Hexit & _ & _ & _ & Hslots & _).
  eexists st', _. split; [exact Hexit |].
  assert (slot_get st' slot = None) as Hget.
  { unfold slot_get. by rewrite Hslots, dict_lookup_set_eq. }
  split; [by apply vehicle_exit_vacant | by apply calculate_charges_vacant].
Qed.

Lemma no_double_release_witness :
  ∃ st' receipt,
    vehicle_exit two_parked 1 hour = Return (st', receipt)
    ∧ vehicle_exit st' 1 (2 * hour) = Return (st', SlotEmptyOrInvalid 1)
    ∧ calculate_charges st' 1 (2 * hour) = Return (0%Q, None).
Proof.
  apply (no_double_release two_parked 1 (Vehicle "KA01" "car" 0) hour
           (2 * hour)).
  - exact two_parked_reachable.
  - reflexivity.
Defined.



(** ** More on charges *)

Section charges_more.
Local Open Scope Q_scope.

Lemma duration_hours_mono (a b entry_time : datetime) :
  (a ≤ b)%Z → duration_hours a entry_time <= duration_hours b entry_time.
Proof.
  intros Hab. unfold duration_hours, total_seconds.
  assert (inject_Z (a - entry_time) <= inject_Z (b - entry_time)) as Hle
    by (rewrite <- Zle_Qle; lia).
  set (x := inject_Z (a - entry_time)) in *.
  set (y := inject_Z (b - entry_time)) in *.
  assert (x / 1000000 / 3600 == x * (1 # 3600000000)) as -> by (field; lra).
  assert (y / 1000000 / 3600 == y * (1 # 3600000000)) as -> by (field; lra).
  lra.
Qed.

(** The amount before rounding does not fall when the stay gets longer. *)
Lemma charges_mono (r : rates) (d d' : Q) :
  (0 ≤ hourly r)%Z → d <= d' →
  (if Qle_bool d 2 then inject_Z (base r)
   else inject_Z (base r) + (d - 2) * inject_Z (hourly r))
  <= (if Qle_bool d' 2 then inject_Z (base r)
      else inject_Z (base r) + (d' - 2) * inject_Z (hourly r)).
Proof.
  intros Hh Hd.
  assert (0 <= inject_Z (hourly r)) as Hh'.
  { change 0 with (inject_Z 0). by rewrite <- Zle_Qle. }
  destruct (Qle_bool d 2) eqn:H1, (Qle_bool d' 2) eqn:H2.
  - apply Qle_refl.
  - assert (2 < d').
    { apply Qnot_le_lt. intros Hle. apply Qle_bool_iff in Hle. congruence. }
    assert (0 <= (d' - 2) * inject_Z (hourly r))
      by (apply Qmult_le_0_compat; lra).
    lra.
  - apply Qle_bool_iff in H2.
    assert (2 < d).
    { apply Qnot_le_lt. intros Hle. apply Qle_bool_iff in Hle. congruence. }
    lra.
  - assert ((d - 2) * inject_Z (hourly r) <= (d' - 2) * inject_Z (hourly r))
      by (apply Qmult_le_compat_r; lra).
    lra.
Qed.

Lemma duration_hours_whole (entry_time : datetime) (k : Z) :
  duration_hours (entry_time + k * hour) entry_time == inject_Z k.
Proof.
  unfold duration_hours, total_seconds, hour.
  replace (entry_time + k * 3600000000 - entry_time)%Z
    with (k * 3600000000)%Z by lia.
  rewrite inject_Z_mult. change (inject_Z 3600000000) with 3600000000.
  field.
Qed.
End charges_more.

(** X9.  Staying longer never costs less: for an occupied slot the amount
    computed at a later clock reading is at least the amount computed at
    an earlier one. *)
Theorem charges_grow_with_time (st : SmartParkingSystem) (slot : Z)
    (v : vehicle) (now now' : datetime) :
  reachable st → slot_occupied_by st slot v → now ≤ now' →
  ∃ amount amount',
    calculate_charges st slot now = Return (amount, Some now)
    ∧ calculate_charges st slot now' = Return (amount', Some now')
    ∧ (amount <= amount')%Q.
Proof.
  intros Hreach Hocc Hle. apply reachable_inv in Hreach as Hinv.
  destruct (inv_types _ Hinv _ _ Hocc) as [r Hr].
  pose proof Hr as Hpos. rewrite (inv_pricing _ Hinv) in Hpos.
  apply default_pricing_positive in Hpos as [_ Hh].
  eexists _, _.
  split; [exact (calculate_charges_occupied st slot now v r Hocc Hr) |].
  split; [exact (calculate_charges_occupied st slot now' v r Hocc Hr) |].
  apply py_round_mono, charges_mono; [done |].
  by apply duration_hours_mono.
Qed.

Lemma charges_grow_with_time_witness :
  ∃ amount amount',
    calculate_charges two_parked 1 hour = Return (amount, Some hour)
    ∧ calculate_charges two_parked 1 (3 * hour) = Return (amount', Some (3 * hour))
    ∧ (amount <= amount')%Q.
Proof.
  apply (charges_grow_with_time two_parked 1 (Vehicle "KA01" "car" 0) hour
           (3 * hour)).
  - exact two_parked_reachable.
  - reflexivity.
  - unfold hour. lia.
Defined.

(** X10.  Whole hours are charged to the cent without rounding: a vehicle
    that leaves [2 + k] hours after it came, [k >= 0] whole, pays the base
    charge plus [k] times the hourly rate of its class. *)
Theorem whole_hours_charge (st : SmartParkingSystem) (slot : Z) (v : vehicle)
    (k : Z) :
  reachable st → slot_occupied_by st slot v → 0 ≤ k →
  ∃ r amount,
    pricing st !! vtype v = Some r
    ∧ calculate_charges st slot (entry_time v + (2 + k) * hour)
      = Return (amount, Some (entry_time v + (2 + k) * hour))
    ∧ (amount == inject_Z (base r + k * hourly r))%Q.
Proof.
  intros Hreach Hocc Hk. apply reachable_inv in Hreach as Hinv.
  destruct (inv_types _ Hinv _ _ Hocc) as [r Hr].
  eexists r, _. split; [exact Hr |].
  split; [exact (calculate_charges_occupied st slot _ v r Hocc Hr) |].
  pose proof (duration_hours_whole (entry_time v) (2 + k)) as Hd.
  rewrite inject_Z_plus in Hd. change (inject_Z 2) with 2%Q in Hd.
  assert (0 <= inject_Z k)%Q as Hkq.
  { change 0%Q with (inject_Z 0). by rewrite <- Zle_Qle. }
  destruct (Qle_bool _ 2) eqn:Hb.
  - apply Qle_bool_iff in Hb.
    assert (inject_Z k == 0)%Q as Hk0 by lra.
    rewrite py_round_Z, inject_Z_plus, inject_Z_mult, Hk0. ring.
  - assert (inject_Z (base r)
            + (duration_hours (entry_time v + (2 + k) * hour) (entry_time v) - 2)
              * inject_Z (hourly r)
            == inject_Z (base r + k * hourly r))%Q as ->.
    { rewrite Hd, inject_Z_plus, inject_Z_mult. ring. }
    apply py_round_Z.
Qed.

Lemma whole_hours_charge_witness :
  ∃ r amount,
    pricing two_parked !! "car" = Some r
    ∧ calculate_charges two_parked 1 (0 + (2 + 3) * hour)
      = Return (amount, Some (0 + (2 + 3) * hour))
    ∧ (amount == inject_Z (base r + 3 * hourly r))%Q.
Proof.
  apply (whole_hours_charge two_parked 1 (Vehicle "KA01" "car" 0) 3).
  - exact two_parked_reachable.
  - reflexivity.
  - lia.
Defined.

(** ** More on admissions *)

Lemma vehicle_entry_parks (st : SmartParkingSystem)
    (vehicle_no vehicle_type : string) (now : datetime) (k : Z) :
  ledger_inv st → is_Some (pricing st !! vehicle_type) → slot_free st k →
  ∃ s,
    find_free_slot st = Some s
    ∧ lowest_free_slot st s
    ∧ vehicle_entry st vehicle_no vehicle_type now
      = ({| total_slots := total_slots st;
            parking_slots :=
              dict_set (parking_slots st) s
                (Some (Vehicle vehicle_no vehicle_type now));
            revenue_today := revenue_today st;
            vehicles_today := vehicles_today st + 1;
            daily_records := daily_records st;
            pricing := pricing st |},
         Parked vehicle_no vehicle_type s now).
Proof.
  intros Hinv [r Hr] Hk. unfold vehicle_entry. rewrite Hr.
  destruct (find_free_slot st) as [s |] eqn:Hfind.
  - exists s. split; [done |]. split; [| done].
    by apply (find_free_slot_Some st Hinv).
  - by destruct (proj1 (find_free_slot_None st Hinv) Hfind k).
Qed.

(** X11.  Vehicle numbers are not checked against the vehicles that are
    parked: with two free slots, two admissions under one number both go
    through and the number then stands in two different slots. *)
Theorem same_number_parks_twice (st : SmartParkingSystem)
    (vehicle_no type1 type2 : string) (now now' : datetime) (s1 s2 : Z) :
  reachable st →
  is_Some (pricing st !! type1) → is_Some (pricing st !! type2) →
  slot_free st s1 → slot_free st s2 → s1 ≠ s2 →
  ∃ st1 st2 a b,
    vehicle_entry st vehicle_no type1 now = (st1, Parked vehicle_no type1 a now)
    ∧ vehicle_entry st1 vehicle_no type2 now'
      = (st2, Parked vehicle_no type2 b now')
    ∧ a ≠ b
    ∧ slot_occupied_by st2 a (Vehicle vehicle_no type1 now)
    ∧ slot_occupied_by st2 b (Vehicle vehicle_no type2 now').
Proof.
  intros Hreach Ht1 Ht2 Hf1 Hf2 Hne. apply reachable_inv in Hreach as Hinv.
  destruct (vehicle_entry_parks st vehicle_no type1 now s1 Hinv Ht1 Hf1)
    as (a & _ & _ & He1).
  pose proof (vehicle_entry_inv st vehicle_no type1 now Hinv) as Hinv1.
  rewrite He1 in Hinv1. cbn [fst] in Hinv1.
  set (st1 := Ledger _ _ _ _ _ _) in *.
  assert (∃ k, slot_free st1 k) as [k Hk].
  { destruct (decide (a = s1)) as [-> | Ha].
    - exists s2. unfold slot_free. cbn [st1 parking_slots].
      by rewrite dict_lookup_set_ne.
    - exists s1. unfold slot_free. cbn [st1 parking_slots].
      by rewrite dict_lookup_set_ne. }
  destruct (vehicle_entry_parks st1 vehicle_no type2 now' k Hinv1 Ht2 Hk)
    as (b & _ & [Hb _] & He2).
  assert (a ≠ b) as Hab.
  { intros <-. unfold slot_free in Hb. cbn [st1 parking_slots] in Hb.
    by rewrite dict_lookup_set_eq in Hb. }
  eexists st1, _, a, b. split; [exact He1 |]. split; [exact He2 |].
  split; [exact Hab |]. unfold slot_occupied_by. cbn [st1 parking_slots].
  split.
  - rewrite dict_lookup_set_ne by done. apply dict_lookup_set_eq.
  - apply dict_lookup_set_eq.
Qed.

Lemma same_number_parks_twice_witness :
  ∃ st1 st2 a b,
    vehicle_entry two_parked "KA01" "car" hour = (st1, Parked "KA01" "car" a hour)
    ∧ vehicle_entry st1 "KA01" "ev" hour = (st2, Parked "KA01" "ev" b hour)
    ∧ a ≠ b
    ∧ slot_occupied_by st2 a (Vehicle "KA01" "car" hour)
    ∧ slot_occupied_by st2 b (Vehicle "KA01" "ev" hour).
Proof.
  apply (same_number_parks_twice two_parked "KA01" "car" "ev" hour hour 3 4).
  - exact two_parked_reachable.
  - eexists. reflexivity.
  - eexists. reflexivity.
  - reflexivity.
  - reflexivity.
  - lia.
Defined.

Lemma run_entry (st st1 st' : SmartParkingSystem)
    (vehicle_no vehicle_type : string) (now : datetime) (m : entry_message)
    (vs : list (string * string * datetime)) (os : list output) :
  vehicle_entry st vehicle_no vehicle_type now = (st1, m) →
  run st1 (entries vs) = Return (st', os) →
  run st (entries ((vehicle_no, vehicle_type, now) :: vs))
  = Return (st', OutEntry m :: os).
Proof.
  intros He Hrun.
  change (entries ((vehicle_no, vehicle_type, now) :: vs))
    with (VehicleEntry vehicle_no vehicle_type now :: entries vs).
  cbn [run step]. rewrite He. cbn [mbind pyresult_bind]. by rewrite Hrun.
Qed.

(** A ledger whose slots 1 to [j] are taken and whose other slots are
    free answers admissions of configured types with the slots [j + 1],
    [j + 2], .. while there are any, and with parking-full after that. *)
Lemma entries_fill (st : SmartParkingSystem) (j : Z)
    (vs : list (string * string * datetime)) :
  ledger_inv st → 0 ≤ j →
  (∀ k, 1 ≤ k ≤ j → ¬ slot_free st k) →
  (∀ k, j < k ≤ total_slots st → slot_free st k) →
  Forall (λ v, is_Some (pricing st !! v.1.2)) vs →
  ∃ st' os,
    run st (entries vs) = Return (st', os)
    ∧ os = imap (λ i v, entry_answer (total_slots st) (j + Z.of_nat i) v) vs.
Proof.
  revert st j. induction vs as [| [[vno vt] now] vs IH];
    intros st j Hinv Hj Htaken Hfree Hvs.
  - by exists st, [].
  - apply Forall_cons in Hvs as [Hvt Hvs]. cbn [fst snd] in Hvt.
    destruct (decide (j < total_slots st)) as [Hlt | Hge].
    + destruct (vehicle_entry_parks st vno vt now (j + 1) Hinv Hvt)
        as (s & _ & [Hs Hlow] & He); [apply Hfree; lia |].
      assert (s = j + 1) as ->.
      { pose proof (slot_free_in_range st Hinv s Hs) as [Hs1 _].
        specialize (Hlow (j + 1) ltac:(apply Hfree; lia)).
        destruct (decide (s ≤ j)) as [Hsj | Hsj]; [| lia].
        destruct (Htaken s ltac:(lia) Hs). }
      pose proof (vehicle_entry_inv st vno vt now Hinv) as Hinv1.
      rewrite He in Hinv1. cbn [fst] in Hinv1.
      set (st1 := Ledger _ _ _ _ _ _) in *.
      destruct (IH st1 (j + 1)) as (st' & os & Hrun & Hos); try done.
      * lia.
      * intros k Hk. unfold slot_free. cbn [st1 parking_slots].
        destruct (decide (k = j + 1)) as [-> | Hne].
        -- by rewrite dict_lookup_set_eq.
        -- rewrite dict_lookup_set_ne by done. apply Htaken. lia.
      * intros k Hk. cbn [st1 total_slots] in Hk.
        unfold slot_free. cbn [st1 parking_slots].
        rewrite dict_lookup_set_ne by lia. apply Hfree. lia.
      * exists st', (OutEntry (Parked vno vt (j + 1) now) :: os). split.
        -- by apply (run_entry _ _ _ _ _ _ _ _ _ He).
        -- rewrite imap_cons. cbn [entry_answer]. f_equal.
           ++ rewrite Z.add_0_r. by rewrite decide_True.
           ++ rewrite Hos. apply imap_ext. intros i v _. cbn [compose].
              cbn [st1 total_slots]. f_equal. lia.
    + assert (find_free_slot st = None) as Hnone.
      { apply (find_free_slot_None st Hinv). intros k Hk.
        pose proof (slot_free_in_range st Hinv k Hk) as [Hk1 Hk2].
        apply (Htaken k); [lia | done]. }
      destruct Hvt as [r Hr].
      assert (vehicle_entry st vno vt now = (st, ParkingFull)) as He.
      { unfold vehicle_entry. by rewrite Hr, Hnone. }
      destruct (IH st j) as (st' & os & Hrun & Hos); try done.
      exists st', (OutEntry ParkingFull :: os). split.
      * by apply (run_entry _ _ _ _ _ _ _ _ _ He).
      * rewrite imap_cons. cbn [entry_answer]. f_equal.
        -- rewrite Z.add_0_r. by rewrite decide_False.
        -- rewrite Hos. apply imap_ext. intros i v _. cbn [compose].
           unfold entry_answer. destruct v as [[? ?] ?].
           by rewrite !decide_False by lia.
Qed.

(** X12.  A fresh facility fills from slot 1 upwards: of any admissions
    of configured types made in a row on a ledger built for [n] slots, the
    first gets slot 1, the next slot 2, and so on to slot [n]; every later
    one is answered with parking-full. *)
Theorem admissions_fill_in_order (n : Z)
    (vs : list (string * string * datetime)) :
  Forall (λ v, is_Some (default_pricing !! v.1.2)) vs →
  ∃ st os,
    run (init n) (entries vs) = Return (st, os)
    ∧ os = imap (λ i v, entry_answer n (Z.of_nat i) v) vs.
Proof.
  intros Hvs.
  destruct (entries_fill (init n) 0 vs (init_inv n)) as (st & os & Hrun & Hos);
    try done.
  - lia.
  - intros k Hk. cbn [init total_slots] in Hk. unfold slot_free.
    cbn [init parking_slots]. rewrite (dict_lookup_init (λ _, None)).
    rewrite decide_True; [done |]. apply elem_of_seqZ. lia.
  - exists st, os. split; [done |]. rewrite Hos. apply imap_ext.
    intros i v _. cbn [init total_slots]. f_equal.
Qed.

Lemma admissions_fill_in_order_witness :
  ∃ st os,
    run (init 2) (entries [("A", "car", 0); ("B", "ev", 5); ("C", "bike", 9)])
    = Return (st, os)
    ∧ os = imap (λ i v, entry_answer 2 (Z.of_nat i) v)
             [("A", "car", 0); ("B", "ev", 5); ("C", "bike", 9)].
Proof.
  apply (admissions_fill_in_order 2
           [("A", "car", 0); ("B", "ev", 5); ("C", "bike", 9)]).
  repeat constructor; eexists; reflexivity.
Defined.

(** ** Status *)

Lemma status_lines_imap (d : dict (option vehicle)) (clock : nat → datetime) :
  status_lines d clock
  = imap (λ k '(slot, v),
            (slot, vehicle_no v, vtype v,
             duration_hours (clock k) (entry_time v)))
      (omap (λ '(slot, data), (λ v, (slot, v)) <$> data) d).
Proof.
  revert clock. induction d as [| [slot [v |]] d IH]; intros clock; [done | |].
  - cbn [status_lines omap list_omap fmap option_fmap option_map].
    rewrite imap_cons. f_equal. rewrite IH. by apply imap_ext.
  - cbn [status_lines omap list_omap fmap option_fmap option_map]. apply IH.
Qed.

Lemma omap_pair_fst {A B} (h : A → option B) (l : list A) :
  (omap (λ a, (λ b, (a, b)) <$> h a) l).*1 = filter (λ a, is_Some (h a)) l.
Proof.
  induction l as [| a l IH]; [done |].
  rewrite filter_cons. cbn [omap list_omap].
  destruct (h a) as [b |]; cbn [fmap option_fmap option_map].
  - rewrite decide_True by done. rewrite fmap_cons. cbn [fst]. by rewrite <- IH.
  - rewrite decide_False by (by intros [? ?]). exact IH.
Qed.

(** X13.  [display_status] shows the number of slots that hold a vehicle
    and the capacity less that number as free, which is not negative for a
    capacity that is not; it prints one line for each slot from 1 to the
    capacity that holds a vehicle, in ascending order, with the number and
    the type of its occupant and the hours from its entry to the clock
    reading taken for that line. *)
Theorem display_status_lines (st : SmartParkingSystem)
    (clock : nat → datetime) :
  reachable st →
  sv_occupied (display_status_clock st clock)
  = Z.of_nat (length (occupied_slots st))
  ∧ sv_free (display_status_clock st clock)
    = total_slots st - Z.of_nat (length (occupied_slots st))
  ∧ (0 ≤ total_slots st →
     0 ≤ sv_free (display_status_clock st clock) ≤ total_slots st)
  ∧ sv_lines (display_status_clock st clock)
    = imap (λ k '(slot, v),
              (slot, vehicle_no v, vtype v,
               duration_hours (clock k) (entry_time v)))
        (occupants st)
  ∧ (occupants st).*1 = occupied_slots st
  ∧ ∀ slot v, (slot, v) ∈ occupants st ↔ slot_occupied_by st slot v.
Proof.
  intros Hreach. apply reachable_inv in Hreach as Hinv.
  pose proof (occupied_slots_count st Hinv) as Hcount.
  assert (omap (λ '(slot, data), (λ v, (slot, v)) <$> data) (parking_slots st)
          = occupants st) as Hocc.
  { rewrite (dict_omap_keys (λ slot data, (λ v, (slot, v)) <$> data)).
    2: { rewrite (inv_keys _ Hinv). apply NoDup_seqZ. }
    rewrite (inv_keys _ Hinv). apply list_omap_ext, Forall2_same_length_lookup.
    split; [done |]. intros i x y Hx Hy. rewrite Hx in Hy. injection Hy as <-.
    unfold slot_get. by destruct (dict_lookup (parking_slots st) x) as [[|]|]. }
  split_and!.
  - cbn [display_status_clock sv_occupied]. by rewrite Hcount.
  - cbn [display_status_clock sv_free]. by rewrite Hcount.
  - intros Htot. cbn [display_status_clock sv_free]. rewrite <- Hcount.
    pose proof (length_filter (λ slot, is_Some (slot_get st slot))
                  (seqZ 1 (total_slots st))) as Hle.
    rewrite length_seqZ in Hle. unfold occupied_slots. lia.
  - cbn [display_status_clock sv_lines]. by rewrite status_lines_imap, Hocc.
  - apply omap_pair_fst.
  - intros slot v. unfold occupants. rewrite list_elem_of_omap. split.
    + intros (k & Hk & Hv).
      destruct (slot_get st k) as [v' |] eqn:Hget; [| done].
      injection Hv as <- <-. by apply slot_get_occupied.
    + intros Hv. exists slot. split.
      * apply elem_of_seqZ.
        pose proof (proj1 (slot_lookup_in_range st Hinv slot)) as Hr.
        unfold slot_occupied_by in Hv. rewrite Hv in Hr.
        destruct (Hr ltac:(done)). lia.
      * apply slot_get_occupied in Hv. by rewrite Hv.
Qed.

Lemma display_status_lines_witness :
  sv_occupied (display_status_clock two_parked (λ k, hour + Z.of_nat k))
  = Z.of_nat (length (occupied_slots two_parked))
  ∧ sv_free (display_status_clock two_parked (λ k, hour + Z.of_nat k))
    = total_slots two_parked - Z.of_nat (length (occupied_slots two_parked))
  ∧ (0 ≤ total_slots two_parked →
     0 ≤ sv_free (display_status_clock two_parked (λ k, hour + Z.of_nat k))
     ≤ total_slots two_parked)
  ∧ sv_lines (display_status_clock two_parked (λ k, hour + Z.of_nat k))
    = imap (λ k '(slot, v),
              (slot, vehicle_no v, vtype v,
               duration_hours (hour + Z.of_nat k) (entry_time v)))
        (occupants two_parked)
  ∧ (occupants two_parked).*1 = occupied_slots two_parked
  ∧ ∀ slot v, (slot, v) ∈ occupants two_parked ↔ slot_occupied_by two_parked slot v.
Proof.
  apply (display_status_lines two_parked (λ k, hour + Z.of_nat k)).
  exact two_parked_reachable.
Defined.

(** With one reading for all the lines the status is the one the runs of
    calls return. *)
Lemma display_status_clock_const (st : SmartParkingSystem) (now : datetime) :
  display_status_clock st (λ _, now) = display_status st now.
Proof.
  unfold display_status_clock, display_status. f_equal.
  induction (parking_slots st) as [| [slot [v |]] d IH]; [done | |].
  - cbn [status_lines omap list_omap fmap option_fmap option_map].
    by rewrite IH.
  - cbn [status_lines omap list_omap fmap option_fmap option_map]. exact IH.
Qed.

(** ** More on reports *)

(** X14.  A report changes nothing a later report reads: two reports made
    in a row are both appended to the history, in order, and the second
    differs from the first in its date at most; slots, revenue and vehicle
    counter are as before. *)
Theorem daily_report_twice (st : SmartParkingSystem) (now now' : datetime) :
  ∃ st1 r1 st2 r2,
    daily_report st now = Return (st1, r1)
    ∧ daily_report st1 now' = Return (st2, r2)
    ∧ daily_records st2 = daily_records st ++ [r1; r2]
    ∧ rep_date r1 = now ∧ rep_date r2 = now'
    ∧ rep_vehicles r2 = rep_vehicles r1
    ∧ rep_revenue r2 = rep_revenue r1
    ∧ rep_avg r2 = rep_avg r1
    ∧ rep_peak r2 = rep_peak r1
    ∧ rep_total_slots r2 = rep_total_slots r1
    ∧ parking_slots st2 = parking_slots st
    ∧ revenue_today st2 = revenue_today st
    ∧ vehicles_today st2 = vehicles_today st.
Proof.
  destruct (daily_report_Return st now) as (avg & Havg & Heq).
  set (st1 := Ledger _ _ _ _ _ _) in Heq.
  destruct (daily_report_Return st1 now') as (avg' & Havg' & Heq').
  cbn [st1 vehicles_today revenue_today] in Havg'.
  rewrite Havg in Havg'. injection Havg' as <-.
  eexists _, _, _, _. split; [exact Heq |]. split; [exact Heq' |].
  cbn [st1 daily_records parking_slots revenue_today vehicles_today
       total_slots rep_date rep_vehicles rep_revenue rep_avg rep_peak
       rep_total_slots].
  rewrite <- app_assoc. split_and!; reflexivity.
Qed.

Lemma save_report_file_Return (st : SmartParkingSystem) (fs : filesystem)
    (filename : string) (now : datetime) :
  ∃ st' r,
    daily_report st now = Return (st', r)
    ∧ rep_date r = now
    ∧ daily_records st' = daily_records st ++ [r]
    ∧ save_report_file st fs filename now
      = Return (st', <[filename := default [] (fs !! filename) ++ [r]]> fs).
Proof.
  destruct (daily_report_Return st now) as (avg & _ & Heq).
  eexists _, _. split; [exact Heq |]. split; [reflexivity |].
  split; [reflexivity |]. unfold save_report_file. by rewrite Heq.
Qed.

(** X15.  [save_report] never truncates: saving to one file at each of
    some clock readings appends the same reports, in the same order, to
    the history of the ledger and to the end of the file, one for each
    reading, and leaves every other file as it is. *)
Theorem save_reports_append (st : SmartParkingSystem) (fs : filesystem)
    (filename : string) (times : list datetime) :
  ∃ st' fs' rs,
    save_reports st fs filename times = Return (st', fs')
    ∧ rep_date <$> rs = times
    ∧ daily_records st' = daily_records st ++ rs
    ∧ default [] (fs' !! filename) = default [] (fs !! filename) ++ rs
    ∧ ∀ other, other ≠ filename → fs' !! other = fs !! other.
Proof.
  revert st fs. induction times as [| now times IH]; intros st fs.
  - exists st, fs, []. rewrite !app_nil_r. by split_and!.
  - destruct (save_report_file_Return st fs filename now)
      as (st1 & r & _ & Hdate & Hrec & Hsave).
    destruct (IH st1 (<[filename := default [] (fs !! filename) ++ [r]]> fs))
      as (st' & fs' & rs & Hrun & Hdates & Hrecs & Hfile & Hother).
    exists st', fs', (r :: rs). split_and!.
    + cbn [save_reports]. rewrite Hsave. exact Hrun.
    + rewrite fmap_cons. by rewrite Hdate, Hdates.
    + rewrite Hrecs, Hrec, <- app_assoc. reflexivity.
    + unfold filesystem in *. rewrite Hfile, lookup_insert_eq.
      cbn [default from_option id]. rewrite <- app_assoc. reflexivity.
    + intros other Hne. unfold filesystem in *. rewrite Hother by done.
      by rewrite lookup_insert_ne.
Qed.

(** ** The menu loop *)

Lemma run_snoc (st0 st st' : SmartParkingSystem) (cs : list call) (c : call)
    (os : list output) (o : output) :
  run st0 cs = Return (st, os) → step st c = Return (st', o) →
  run st0 (cs ++ [c]) = Return (st', os ++ [o]).
Proof.
  revert st0 os. induction cs as [| c0 cs IH]; intros st0 os Hrun Hstep.
  - injection Hrun as <- <-. cbn [app run]. rewrite Hstep. reflexivity.
  - cbn [app run] in Hrun |- *.
    destruct (step st0 c0) as [[st1 o1] |]; [| done].
    cbn [mbind pyresult_bind] in Hrun |- *.
    destruct (run st1 cs) as [[st2 os2] |] eqn:Hrun1; [| done].
    cbn [mbind pyresult_bind] in Hrun. injection Hrun as <- <-.
    by rewrite (IH st1 os2).
Qed.

(** Every call on a ledger the calls can produce returns, and returns such
    a ledger of the same capacity. *)
Lemma reachable_step (st : SmartParkingSystem) (c : call) :
  reachable st →
  ∃ st' o,
    step st c = Return (st', o)
    ∧ reachable st'
    ∧ total_slots st' = total_slots st.
Proof.
  intros Hreach. pose proof (reachable_inv st Hreach) as Hinv.
  destruct (step_frame st c Hinv) as (st' & o & Hstep & _ & Htot & _).
  exists st', o. split_and!; [done | | done].
  destruct Hreach as (n & cs & os & Hrun).
  exists n, (cs ++ [c]), (os ++ [o]). by apply (run_snoc _ st).
Qed.

Lemma vehicle_exit_records (st st' : SmartParkingSystem) (slot : Z)
    (now : datetime) (m : exit_message) :
  vehicle_exit st slot now = Return (st', m) →
  daily_records st' = daily_records st.
Proof.
  unfold vehicle_exit. destruct (slot_get st slot) as [v |].
  - destruct (calculate_charges st slot now) as [[ch [t |]] |];
      cbn [mbind pyresult_bind]; [| done | done].
    by intros [= <- _].
  - by intros [= <- _].
Qed.

Lemma vehicle_entry_records (st : SmartParkingSystem)
    (vehicle_no vehicle_type : string) (now : datetime) :
  daily_records (vehicle_entry st vehicle_no vehicle_type now).1
  = daily_records st.
Proof.
  unfold vehicle_entry. destruct (pricing st !! vehicle_type); [| done].
  by destruct (find_free_slot st).
Qed.

Section main_facts.
Variables py_strip py_upper py_lower : string → string.
Variable py_int : string → option Z.
Variable clock : nat → datetime.

Local Abbreviation loop :=
  (main_loop py_strip py_upper py_lower py_int clock).

Lemma main_loop_safe (inputs : list string) (round : nat)
    (parking : SmartParkingSystem) (fs : filesystem) :
  reachable parking →
  reachable (final_ledger (loop inputs round parking fs))
  ∧ total_slots (final_ledger (loop inputs round parking fs))
    = total_slots parking
  ∧ (how_ended (loop inputs round parking fs) = Quit
     ∨ how_ended (loop inputs round parking fs) = EndOfInput).
Proof.
  remember (length inputs) as n eqn:Hn.
  revert inputs round parking fs Hn.
  induction n as [n IH] using lt_wf_ind. intros inputs round parking fs Hn Hreach.
  destruct inputs as [| line inputs1]; cbn [main_loop]; [by split_and!; [| | right] |].
  cbn [length] in Hn.
  destruct (decide (py_strip line = "1")) as [_ | _].
  { destruct inputs1 as [| line_no [| line_type inputs3]];
      [by split_and!; [| | right] .. |].
    destruct (reachable_step parking
                (VehicleEntry (py_upper (py_strip line_no))
                   (py_lower (py_strip line_type)) (clock round)) Hreach)
      as (st' & o & Hstep & Hreach' & Htot).
    cbn [step] in Hstep.
    destruct (vehicle_entry parking _ _ _) as [parking' m].
    injection Hstep as <- _. cbn [say final_ledger how_ended].
    rewrite <- Htot. eapply IH; [| reflexivity | done]. cbn [length] in Hn. lia. }
  destruct (decide (py_strip line = "2")) as [_ | _].
  { destruct inputs1 as [| line_slot inputs2]; [by split_and!; [| | right] |].
    destruct (py_int line_slot) as [slot |].
    - destruct (reachable_step parking (VehicleExit slot (clock round)) Hreach)
        as (st' & o & Hstep & Hreach' & Htot).
      cbn [step] in Hstep.
      destruct (vehicle_exit parking slot (clock round)) as [[parking' m] |];
        [| done].
      injection Hstep as <- _. cbn [say final_ledger how_ended].
      rewrite <- Htot. eapply IH; [| reflexivity | done]. cbn [length] in Hn. lia.
    - cbn [say final_ledger how_ended].
      eapply IH; [| reflexivity | done]. cbn [length] in Hn. lia. }
  destruct (decide (py_strip line = "3")) as [_ | _].
  { cbn [say final_ledger how_ended]. eapply IH; [| reflexivity | done]. lia. }
  destruct (decide (py_strip line = "4")) as [_ | _].
  { destruct (reachable_step parking (DailyReport (clock round)) Hreach)
      as (st' & o & Hstep & Hreach' & Htot).
    cbn [step] in Hstep.
    destruct (daily_report parking (clock round)) as [[parking' r] |]; [| done].
    injection Hstep as <- _. cbn [say final_ledger how_ended].
    rewrite <- Htot. eapply IH; [| reflexivity | done]. lia. }
  destruct (decide (py_strip line = "5")) as [_ | _].
  { destruct (reachable_step parking (DailyReport (clock round)) Hreach)
      as (st' & o & Hstep & Hreach' & Htot).
    cbn [step] in Hstep. unfold save_report_file.
    destruct (daily_report parking (clock round)) as [[parking' r] |]; [| done].
    injection Hstep as <- _. cbn [mbind pyresult_bind say final_ledger how_ended].
    rewrite <- Htot. eapply IH; [| reflexivity | done]. lia. }
  destruct (decide (py_strip line = "6")) as [_ | _].
  { cbn [final_ledger how_ended]. by split_and!; [| | left]. }
  cbn [say final_ledger how_ended]. eapply IH; [| reflexivity | done]. lia.
Qed.

(** X16.  The menu loop drives the ledger only through its methods and
    none of them raises: provided the console and the report file can be
    written ([print], [open] and [write] are taken to succeed), whatever
    is typed, [main] stops by the quit choice or because the input ends,
    never by an exception of a method of the ledger, and the ledger it
    leaves is one the calls can produce from a fresh ledger of ten slots,
    with ten slots still. *)
Theorem main_is_safe (inputs : list string) (fs : filesystem) :
  reachable (final_ledger (main py_strip py_upper py_lower py_int clock inputs fs))
  ∧ total_slots
      (final_ledger (main py_strip py_upper py_lower py_int clock inputs fs))
    = 10
  ∧ (how_ended (main py_strip py_upper py_lower py_int clock inputs fs) = Quit
     ∨ how_ended (main py_strip py_upper py_lower py_int clock inputs fs)
       = EndOfInput).
Proof. apply main_loop_safe, init_reachable. Qed.

Lemma main_loop_quit (inputs more : list string) (round : nat)
    (parking : SmartParkingSystem) (fs : filesystem) :
  how_ended (loop inputs round parking fs) = Quit →
  loop (inputs ++ more) round parking fs = loop inputs round parking fs.
Proof.
  remember (length inputs) as n eqn:Hn.
  revert inputs round parking fs Hn.
  induction n as [n IH] using lt_wf_ind. intros inputs round parking fs Hn.
  destruct inputs as [| line inputs1]; [done |].
  cbn [length] in Hn. cbn [app main_loop].
  destruct (decide (py_strip line = "1")) as [_ | _].
  { destruct inputs1 as [| line_no [| line_type inputs3]]; [done | done |].
    cbn [app]. destruct (vehicle_entry parking _ _ _) as [parking' m].
    cbn [say how_ended]. intros Hq. f_equal.
    eapply IH; [| reflexivity | done]. cbn [length] in Hn. lia. }
  destruct (decide (py_strip line = "2")) as [_ | _].
  { destruct inputs1 as [| line_slot inputs2]; [done |].
    cbn [app]. destruct (py_int line_slot) as [slot |].
    - destruct (vehicle_exit parking slot (clock round)) as [[parking' m] |];
        [| done].
      cbn [say how_ended]. intros Hq. f_equal.
      eapply IH; [| reflexivity | done]. cbn [length] in Hn. lia.
    - cbn [say how_ended]. intros Hq. f_equal.
      eapply IH; [| reflexivity | done]. cbn [length] in Hn. lia. }
  destruct (decide (py_strip line = "3")) as [_ | _].
  { cbn [say how_ended]. intros Hq. f_equal.
    eapply IH; [| reflexivity | done]. lia. }
  destruct (decide (py_strip line = "4")) as [_ | _].
  { destruct (daily_report parking (clock round)) as [[parking' r] |]; [| done].
    cbn [say how_ended]. intros Hq. f_equal.
    eapply IH; [| reflexivity | done]. lia. }
  destruct (decide (py_strip line = "5")) as [_ | _].
  { destruct (save_report_file parking fs default_report_file (clock round))
      as [[parking' fs'] |]; [| done].
    cbn [say how_ended]. intros Hq. f_equal.
    eapply IH; [| reflexivity | done]. lia. }
  destruct (decide (py_strip line = "6")) as [_ | _]; [done |].
  cbn [say how_ended]. intros Hq. f_equal.
  eapply IH; [| reflexivity | done]. lia.
Qed.

(** X17.  Nothing is read after the quit choice: when [main] stops by the
    quit choice on some lines, it does the same, prints the same and
    leaves the same ledger and files on those lines followed by any
    others. *)
Theorem main_stops_at_quit (inputs more : list string) (fs : filesystem) :
  how_ended (main py_strip py_upper py_lower py_int clock inputs fs) = Quit →
  main py_strip py_upper py_lower py_int clock (inputs ++ more) fs
  = main py_strip py_upper py_lower py_int clock inputs fs.
Proof. apply main_loop_quit. Qed.

Lemma main_loop_files (inputs : list string) (round : nat)
    (parking : SmartParkingSystem) (fs : filesystem) :
  ∃ saved made,
    daily_records (final_ledger (loop inputs round parking fs))
    = daily_records parking ++ made
    ∧ sublist saved made
    ∧ default [] (final_files (loop inputs round parking fs)
                  !! default_report_file)
      = default [] (fs !! default_report_file) ++ saved
    ∧ ∀ other, other ≠ default_report_file →
        final_files (loop inputs round parking fs) !! other = fs !! other.
Proof.
  remember (length inputs) as n eqn:Hn.
  revert inputs round parking fs Hn.
  induction n as [n IH] using lt_wf_ind. intros inputs round parking fs Hn.
  assert (∀ p : session,
            final_ledger p = parking → final_files p = fs →
            ∃ saved made,
              daily_records (final_ledger p) = daily_records parking ++ made
              ∧ sublist saved made
              ∧ default [] (final_files p !! default_report_file)
                = default [] (fs !! default_report_file) ++ saved
              ∧ ∀ other, other ≠ default_report_file →
                  final_files p !! other = fs !! other) as Hstop.
  { intros p -> ->. exists [], []. by rewrite !app_nil_r. }
  destruct inputs as [| line inputs1]; cbn [main_loop]; [by apply Hstop |].
  cbn [length] in Hn.
  destruct (decide (py_strip line = "1")) as [_ | _].
  { destruct inputs1 as [| line_no [| line_type inputs3]];
      [by apply Hstop | by apply Hstop |].
    pose proof (vehicle_entry_records parking (py_upper (py_strip line_no))
                  (py_lower (py_strip line_type)) (clock round)) as Hrec.
    destruct (vehicle_entry parking _ _ _) as [parking' m]. cbn [fst] in Hrec.
    cbn [say final_ledger final_files]. rewrite <- Hrec.
    eapply IH; [| reflexivity]. cbn [length] in Hn. lia. }
  destruct (decide (py_strip line = "2")) as [_ | _].
  { destruct inputs1 as [| line_slot inputs2]; [by apply Hstop |].
    destruct (py_int line_slot) as [slot |].
    - destruct (vehicle_exit parking slot (clock round))
        as [[parking' m] |] eqn:Hexit; [| by apply Hstop].
      apply vehicle_exit_records in Hexit.
      cbn [say final_ledger final_files]. rewrite <- Hexit.
      eapply IH; [| reflexivity]. cbn [length] in Hn. lia.
    - cbn [say final_ledger final_files].
      eapply IH; [| reflexivity]. cbn [length] in Hn. lia. }
  destruct (decide (py_strip line = "3")) as [_ | _].
  { cbn [say final_ledger final_files]. eapply IH; [| reflexivity]. lia. }
  destruct (decide (py_strip line = "4")) as [_ | _].
  { destruct (daily_report_Return parking (clock round)) as (avg & _ & Heq).
    rewrite Heq. cbn [say final_ledger final_files].
    set (parking' := Ledger _ _ _ _ _ _).
    destruct (IH (length inputs1) ltac:(lia) inputs1 (S round) parking' fs
                eq_refl) as (saved & made & Hrec & Hsub & Hfile & Hother).
    eexists saved, (_ :: made). split_and!; [| | exact Hfile | exact Hother].
    - rewrite Hrec. cbn [parking' daily_records].
      rewrite <- app_assoc. reflexivity.
    - by apply sublist_cons. }
  destruct (decide (py_strip line = "5")) as [_ | _].
  { destruct (save_report_file_Return parking fs default_report_file
                (clock round)) as (parking' & r & _ & _ & Hrec1 & Hsave).
    rewrite Hsave. cbn [say final_ledger final_files].
    destruct (IH (length inputs1) ltac:(lia) inputs1 (S round) parking'
                (<[default_report_file :=
                     default [] (fs !! default_report_file) ++ [r]]> fs)
                eq_refl) as (saved & made & Hrec & Hsub & Hfile & Hother).
    exists (r :: saved), (r :: made). unfold filesystem in *. split_and!.
    - rewrite Hrec, Hrec1, <- app_assoc. reflexivity.
    - by apply sublist_skip.
    - rewrite Hfile, lookup_insert_eq. cbn [default from_option id].
      rewrite <- app_assoc. reflexivity.
    - intros other Hne. rewrite Hother by done. by rewrite lookup_insert_ne. }
  destruct (decide (py_strip line = "6")) as [_ | _]; [by apply Hstop |].
  cbn [say final_ledger final_files]. eapply IH; [| reflexivity]. lia.
Qed.

(** X18.  [main] writes to the file [parking_report.txt] only, and only at
    its end: what the file held stays, the reports saved follow it in the
    order they were made, each of them is in the history of the ledger,
    and every other file is as it was. *)
Theorem main_files (inputs : list string) (fs : filesystem) :
  ∃ saved,
    sublist saved
      (daily_records
         (final_ledger (main py_strip py_upper py_lower py_int clock inputs fs)))
    ∧ default []
        (final_files (main py_strip py_upper py_lower py_int clock inputs fs)
         !! default_report_file)
      = default [] (fs !! default_report_file) ++ saved
    ∧ ∀ other, other ≠ default_report_file →
        final_files (main py_strip py_upper py_lower py_int clock inputs fs)
        !! other
        = fs !! other.
Proof.
  destruct (main_loop_files inputs 0 (init 10) fs)
    as (saved & made & Hrec & Hsub & Hfile & Hother).
  exists saved. unfold main. rewrite Hrec. by split_and!.
Qed.
End main_facts.

Lemma main_stops_at_quit_witness :
  main id id id (λ _, None) (λ _, 0) (["4"; "6"] ++ ["1"; "KA01"]) ∅
  = main id id id (λ _, None) (λ _, 0) ["4"; "6"] ∅.
Proof.
  apply (main_stops_at_quit id id id (λ _, None) (λ _, 0) ["4"; "6"]
           ["1"; "KA01"] ∅).
  reflexivity.
Defined.

(** ** Binary64 amounts *)












(** Stays that end on an exact half of a hundredth: the binary64 amounts
    are 20.07, 10.43 and 53.37, while the exact values 20.075, 10.425 and
    53.375, rounded as exact numbers, would give 20.08, 10.42 and 53.38. *)
Example amounts_at_ties :
  Binary64.calculate_charges binary64_two_parked 1 (7227 * second)
  = Return (Binary64.PyFloat (Binary64.nearest_double 2007 100),
            Some (7227 * second))
  ∧ Binary64.calculate_charges binary64_two_parked 2 (7506 * second)
    = Return (Binary64.PyFloat (Binary64.nearest_double 1043 100),
              Some (7506 * second))
  ∧ Binary64.calculate_charges
      (Binary64.vehicle_entry (Binary64.init 1) "H1" "heavy" 0).1 1
      (7686 * second)
    = Return (Binary64.PyFloat (Binary64.nearest_double 5337 100),
              Some (7686 * second))
  ∧ (py_round (20075 # 1000) 2 == 2008 # 100)%Q
  ∧ (py_round (10425 # 1000) 2 == 1042 # 100)%Q
  ∧ (py_round (53375 # 1000) 2 == 5338 # 100)%Q.
Proof. split_and!; vm_compute; reflexivity. Qed.

(** ** Revenue *)


